(** * AIT42-Editor: scripts/generate_icon.py

    A shallow embedding of the icon generator script and the properties
    of its specification.

    The script has two functions.  [generate_icon_svg] returns a literal
    SVG document; [main] computes an output directory next to the script,
    creates it, writes the document to [icon.svg] in it and prints a few
    lines of guidance.  The document is embedded as a string, [main] as a
    computation in a state-and-exception monad over an operating system
    interface [OS]; the interface is instantiated by an in-memory POSIX
    file system ([MemFS]) on which the claims about files are settled. *)

From Stdlib Require Import Ascii String.
From stdpp Require Import gmap strings list fin_maps.

Local Open Scope string_scope.
Local Open Scope list_scope.
Local Open Scope stdpp_scope.
Local Open Scope nat_scope.

(** ** Characters and string literals *)

(** The double quote (code 34) and the line feed (code 10). *)
Definition quot : ascii := "034"%char.
Definition LF : ascii := "010"%char.
Definition apostrophe : ascii := "039"%char.

Definition dq : string := String quot EmptyString.
Definition nl : string := String LF EmptyString.

(** The Python literal of [generate_icon_svg] is delimited by three
    apostrophes and contains none; its double quotes are written here as
    apostrophes and [lit] puts them back. *)
Fixpoint lit (s : string) : string :=
  match s with
  | EmptyString => EmptyString
  | String c s' => String (if Ascii.eqb c apostrophe then quot else c) (lit s')
  end.

(** [s.startswith(pat)] *)
Fixpoint starts_with (pat s : string) : bool :=
  match pat, s with
  | EmptyString, _ => true
  | String a pat', String b s' => Ascii.eqb a b && starts_with pat' s'
  | String _ _, EmptyString => false
  end.

(** ** Text scanning used to read the document *)

Module Text.


(** The text before the first occurrence of the character [c]. *)
Fixpoint take_until (c : ascii) (s : string) : string :=
  match s with
  | EmptyString => EmptyString
  | String a s' => if Ascii.eqb a c then EmptyString else String a (take_until c s')
  end.


(** Number of occurrences of the character [c] in [s]. *)
Fixpoint count_char (c : ascii) (s : string) : nat :=
  match s with
  | EmptyString => 0
  | String a s' => (if Ascii.eqb a c then 1 else 0) + count_char c s'
  end.

Fixpoint drop (n : nat) (s : string) : string :=
  match n, s with
  | S n', String _ s' => drop n' s'
  | _, _ => s
  end.

(** The texts that follow each occurrence of [pat] in [s]. *)
Fixpoint after_each (pat s : string) : list string :=
  (if starts_with pat s then [drop (String.length pat) s] else []) ++
  match s with
  | EmptyString => []
  | String _ s' => after_each pat s'
  end.

Definition occurrences (pat s : string) : nat := length (after_each pat s).

(** The text before the first occurrence of [pat] (all of [s] when there
    is none). *)
Fixpoint before (pat s : string) : string :=
  if starts_with pat s then EmptyString
  else match s with
       | EmptyString => EmptyString
       | String a s' => String a (before pat s')
       end.

(** The text strictly between the first [opening] and the next
    [closing]. *)
Definition between (opening closing s : string) : string :=
  match after_each opening s with
  | [] => EmptyString
  | rest :: _ => before closing rest
  end.

Definition last_char (s : string) : option ascii :=
  match String.length s with
  | 0 => None
  | S n => String.get n s
  end.

End Text.

(** ** A reader of XML start tags *)

Module Xml.

Definition name_end (c : ascii) : bool :=
  Ascii.eqb c " " || Ascii.eqb c ">" || Ascii.eqb c "/" ||
  Ascii.eqb c LF || Ascii.eqb c "009".

(** The element name that starts [s]: up to a blank, [>] or [/]. *)
Fixpoint tag_name (s : string) : string :=
  match s with
  | EmptyString => EmptyString
  | String c s' => if name_end c then EmptyString else String c (tag_name s')
  end.

(** The start tags of [s], in document order, each as its text between
    [<] and [>].  Comments are skipped up to their closing mark; end
    tags, the XML declaration and processing instructions are not start
    tags. *)
Fixpoint scan (in_comment : bool) (s : string) : list string :=
  match s with
  | EmptyString => []
  | String c s' =>
      if in_comment then scan (negb (starts_with "-->" s)) s'
      else if starts_with "<!--" s then scan true s'
      else if Ascii.eqb c "<" then
        match s' with
        | String "/" _ | String "?" _ | String "!" _ => scan false s'
        | _ => Text.take_until ">" s' :: scan false s'
        end
      else scan false s'
  end.

Definition start_tags (s : string) : list string := scan false s.


(** The text of an attribute with its value. *)
Definition attr (name value : string) : string :=
  name +:+ "=" +:+ dq +:+ value +:+ dq.


(** The gradient names used by the url references of the attribute
    [attr]. *)
Definition url_refs_of (attr s : string) : list string :=
  Text.take_until ")" <$> Text.after_each (attr +:+ "=" +:+ dq +:+ "url(#") s.

Definition url_refs (s : string) : list string :=
  Text.take_until ")" <$> Text.after_each "url(#" s.

(** The ids of the gradients declared in the [defs] section. *)
Definition defs_section (s : string) : string :=
  Text.between "<defs>" "</defs>" s.

Definition gradient_ids (s : string) : list string :=
  Text.take_until quot <$>
    Text.after_each ("<linearGradient id=" +:+ dq) (defs_section s).

End Xml.

(** ** The document: [generate_icon_svg] *)

Definition svg_lines : list string :=
  [ "<?xml version='1.0' encoding='UTF-8'?>";
    "<svg width='1024' height='1024' viewBox='0 0 1024 1024' xmlns='http://www.w3.org/2000/svg'>";
    "  <!-- Background gradient -->";
    "  <defs>";
    "    <linearGradient id='bgGrad' x1='0%' y1='0%' x2='100%' y2='100%'>";
    "      <stop offset='0%' style='stop-color:#667eea;stop-opacity:1' />";
    "      <stop offset='100%' style='stop-color:#764ba2;stop-opacity:1' />";
    "    </linearGradient>";
    "    <linearGradient id='iconGrad' x1='0%' y1='0%' x2='100%' y2='100%'>";
    "      <stop offset='0%' style='stop-color:#fbbf24;stop-opacity:1' />";
    "      <stop offset='100%' style='stop-color:#f59e0b;stop-opacity:1' />";
    "    </linearGradient>";
    "  </defs>";
    "";
    "  <!-- Background circle -->";
    "  <circle cx='512' cy='512' r='480' fill='url(#bgGrad)'/>";
    "";
    "  <!-- Code editor icon -->";
    "  <g transform='translate(512, 512)'>";
    "    <!-- Bracket symbols representing code -->";
    "    <path d='M -200,-200 L -150,-200 L -150,-150 M -200,200 L -150,200 L -150,150'";
    "          stroke='url(#iconGrad)' stroke-width='40' fill='none' stroke-linecap='round'/>";
    "    <path d='M 200,-200 L 150,-200 L 150,-150 M 200,200 L 150,200 L 150,150'";
    "          stroke='url(#iconGrad)' stroke-width='40' fill='none' stroke-linecap='round'/>";
    "";
    "    <!-- AI brain symbol in center -->";
    "    <circle cx='0' cy='-80' r='30' fill='url(#iconGrad)'/>";
    "    <circle cx='-60' cy='0' r='30' fill='url(#iconGrad)'/>";
    "    <circle cx='60' cy='0' r='30' fill='url(#iconGrad)'/>";
    "    <circle cx='0' cy='80' r='30' fill='url(#iconGrad)'/>";
    "";
    "    <!-- Connection lines -->";
    "    <line x1='0' y1='-50' x2='-42' y2='-21' stroke='url(#iconGrad)' stroke-width='8'/>";
    "    <line x1='0' y1='-50' x2='42' y2='-21' stroke='url(#iconGrad)' stroke-width='8'/>";
    "    <line x1='-42' y1='21' x2='0' y2='50' stroke='url(#iconGrad)' stroke-width='8'/>";
    "    <line x1='42' y1='21' x2='0' y2='50' stroke='url(#iconGrad)' stroke-width='8'/>";
    "    <line x1='-42' y1='-21' x2='-42' y2='21' stroke='url(#iconGrad)' stroke-width='8'/>";
    "    <line x1='42' y1='-21' x2='42' y2='21' stroke='url(#iconGrad)' stroke-width='8'/>";
    "  </g>";
    "</svg>" ].

(** The value of the local variable [svg]: the lines of the literal,
    joined by line feeds, with no line feed after the last one. *)
Definition svg : string := String.concat nl (lit <$> svg_lines).
Arguments svg : simpl never.


(** ** Paths: [os.path.dirname] and [os.path.join] on POSIX *)

Module Posixpath.

Definition sep : string := "/".

Fixpoint has_sep (p : string) : bool :=
  match p with
  | EmptyString => false
  | String c p' => Ascii.eqb c "/" || has_sep p'
  end.

(** [p == sep * len(p)] *)
Fixpoint all_sep (p : string) : bool :=
  match p with
  | EmptyString => true
  | String c p' => Ascii.eqb c "/" && all_sep p'
  end.

(** [p.endswith(sep)] *)
Fixpoint ends_with_sep (p : string) : bool :=
  match p with
  | EmptyString => false
  | String c EmptyString => Ascii.eqb c "/"
  | String _ p' => ends_with_sep p'
  end.

(** [p[:p.rfind(sep) + 1]]: up to and including the last separator. *)
Fixpoint upto_last_sep (p : string) : string :=
  match p with
  | EmptyString => EmptyString
  | String c p' => if has_sep p then String c (upto_last_sep p') else EmptyString
  end.

(** [p.rstrip(sep)] *)
Fixpoint rstrip_sep (p : string) : string :=
  match p with
  | EmptyString => EmptyString
  | String c p' => if all_sep p then EmptyString else String c (rstrip_sep p')
  end.

(** posixpath.dirname:
    i = p.rfind(sep) + 1; head = p[:i];
    if head and head != sep*len(head): head = head.rstrip(sep) *)
Definition dirname (p : string) : string :=
  let head := upto_last_sep p in
  if negb (String.eqb head "") && negb (all_sep head) then rstrip_sep head
  else head.

(** One round of the loop of posixpath.join. *)
Definition join_step (path b : string) : string :=
  if starts_with sep b then b
  else if String.eqb path "" || ends_with_sep path then path +:+ b
  else path +:+ sep +:+ b.

(** posixpath.join(a, *p) *)
Definition join (a : string) (p : list string) : string :=
  fold_left join_step p a.

(** What [join] puts between a directory and what follows it. *)
Definition dir_prefix (d : string) : string :=
  if String.eqb d "" || ends_with_sep d then d else d +:+ "/".

End Posixpath.

(** ** Exceptions and the monad of the script *)

(** The exceptions of the script are the ones its primitives raise: an
    [OSError] with its error number from the file system, and from the
    console an [OSError] as well or a [UnicodeEncodeError]. *)
Inductive exn : Type :=
| OSErr (errno : nat)
| UnicodeEncodeError.

Definition ENOENT := OSErr 2.
Definition EBADF := OSErr 9.
Definition EEXIST := OSErr 17.
Definition ENOTDIR := OSErr 20.
Definition EISDIR := OSErr 21.
Definition ENOSPC := OSErr 28.
Definition EROFS := OSErr 30.

(** What a primitive of the operating system answers: a value, or an
    exception [e] with the chain of [__context__]s it got inside the
    primitive, most recent first (a close that fails to flush, fails a
    second time when it closes the buffer, and raises the second error
    with the first as its context). *)
Inductive reply (A : Type) : Type :=
| Done (a : A)
| Failed (e : exn) (context : list exn).
Arguments Done {A} a.
Arguments Failed {A} e context.

(** What a Python computation ends with: a value, or an exception [e]
    in flight together with its chain of [__context__]s, the exceptions
    that were being handled when [e] was raised, most recent first. *)
Inductive result (A : Type) : Type :=
| Ok (a : A)
| Raise (e : exn) (context : list exn).
Arguments Ok {A} a.
Arguments Raise {A} e context.

Definition M (W A : Type) : Type := W -> result A * W.

#[global] Instance M_ret {W} : MRet (M W) := fun A a w => (Ok a, w).
#[global] Instance M_bind {W} : MBind (M W) := fun A B k m w =>
  match m w with
  | (Ok a, w') => k a w'
  | (Raise e c, w') => (Raise e c, w')
  end.

(** A file object is known by its descriptor. *)
Definition fd := nat.

(** ** The operating system interface *)

Record OS (W : Type) : Type := {
  (** os.makedirs(path, exist_ok=...) *)
  os_makedirs : string -> bool -> W -> reply unit * W;
  (** open(path, 'w') *)
  os_open_w : string -> W -> reply fd * W;
  (** f.write(text), which returns the number of characters written *)
  os_write : fd -> string -> W -> reply nat * W;
  (** f.close() *)
  os_close : fd -> W -> reply unit * W;
  (** print(line) *)
  os_print : string -> W -> reply unit * W;
  (** the flush of [sys.stdout] that the interpreter makes when it
      exits *)
  os_flush : W -> reply unit * W
}.
Arguments os_makedirs {W} _ _ _ _.
Arguments os_open_w {W} _ _ _.
Arguments os_write {W} _ _ _ _.
Arguments os_close {W} _ _ _.
Arguments os_print {W} _ _ _.
Arguments os_flush {W} _ _.

Section Script.

Context {W : Type} (os : OS W).

(** A primitive as a computation: a failure raises its exception, with
    the context it has; [main] handles no exception when it calls one. *)
Definition call {A} (prim : W -> reply A * W) : M W A := fun w =>
  match prim w with
  | (Done a, w') => (Ok a, w')
  | (Failed e c, w') => (Raise e c, w')
  end.

Definition makedirs (path : string) (exist_ok : bool) : M W unit :=
  call (os_makedirs os path exist_ok).
Definition write (f : fd) (text : string) : M W nat := call (os_write os f text).
Definition print (line : string) : M W unit := call (os_print os line).

(** [with open(path, 'w') as f: body].  The file object's [__exit__]
    closes it and returns nothing, so an exception of the body goes on
    after the close; an exception of the close itself replaces it: the
    close runs while the exception of the body is handled, which
    therefore ends the context chain of the exception of the close. *)
Definition with_open {A} (path : string) (body : fd -> M W A) : M W A := fun w =>
  match os_open_w os path w with
  | (Failed e c, w1) => (Raise e c, w1)
  | (Done f, w1) =>
      match body f w1 with
      | (Ok a, w2) =>
          match os_close os f w2 with
          | (Done _, w3) => (Ok a, w3)
          | (Failed e c, w3) => (Raise e c, w3)
          end
      | (Raise e c, w2) =>
          match os_close os f w2 with
          | (Done _, w3) => (Raise e c, w3)
          | (Failed e' c', w3) => (Raise e' (c' ++ e :: c), w3)
          end
      end
  end.

(** def generate_icon_svg() *)
Definition generate_icon_svg : M W string :=
  let svg := svg in
  mret svg.

(** The script's own path, the module global [__file__]. *)
Variable __file__ : string.

Definition output_dir : string :=
  Posixpath.join (Posixpath.dirname __file__) [".."; "src-tauri"; "icons"].

Definition svg_path : string := Posixpath.join output_dir ["icon.svg"].

(** def main() *)
Definition main : M W unit :=
  let output_dir := output_dir in
  makedirs output_dir true;;
  svg_content ← generate_icon_svg;
  let svg_path := svg_path in
  with_open svg_path (fun f => write f svg_content);;
  print ("✓ Generated SVG icon at: " +:+ svg_path);;
  print (nl +:+ "Next steps:");;
  print "1. Convert SVG to PNG using online tool or ImageMagick:";;
  print "   - Online: https://cloudconvert.com/svg-to-png";;
  print "   - Or install ImageMagick: brew install imagemagick";;
  print "   - Then run: convert -background none -size 1024x1024 icon.svg icon.png";;
  print (nl +:+ "2. Generate Tauri icons:");;
  print "   npm run tauri icon src-tauri/icons/icon.png".

(** Running the file as a program: [if __name__ == '__main__': main()].
    The status is 0 when [main] returns and 1 when an exception reaches
    the top level; the interpreter then flushes [sys.stdout], and when
    that flush fails it reports the error and exits with status 120
    instead. *)
Definition exit_status {A} (r : result A) : nat :=
  match r with
  | Ok _ => 0
  | Raise _ _ => 1
  end.

Definition status {A} (flushed : reply unit) (r : result A) : nat :=
  match flushed with
  | Done _ => exit_status r
  | Failed _ _ => 120
  end.

Definition script (w : W) : nat * W :=
  let (r, w1) := main w in
  let (flushed, w2) := os_flush os w1 in
  (status flushed r, w2).

End Script.

(** ** Observing a run: the log of the primitives called *)

Inductive event : Type :=
| EvMakedirs (path : string) (exist_ok : bool) (r : reply unit)
| EvOpen (path : string) (r : reply fd)
| EvWrite (f : fd) (text : string) (r : reply nat)
| EvClose (f : fd) (r : reply unit)
| EvPrint (line : string) (r : reply unit).

(** [traced os] behaves as [os] and appends every call of [main], with
    its answer, to a log kept beside the world. *)
Definition traced {W} (os : OS W) : OS (W * list event) := {|
  os_makedirs p ok s :=
    let (r, w') := os_makedirs os p ok s.1 in (r, (w', s.2 ++ [EvMakedirs p ok r]));
  os_open_w p s :=
    let (r, w') := os_open_w os p s.1 in (r, (w', s.2 ++ [EvOpen p r]));
  os_write f t s :=
    let (r, w') := os_write os f t s.1 in (r, (w', s.2 ++ [EvWrite f t r]));
  os_close f s :=
    let (r, w') := os_close os f s.1 in (r, (w', s.2 ++ [EvClose f r]));
  os_print l s :=
    let (r, w') := os_print os l s.1 in (r, (w', s.2 ++ [EvPrint l r]));
  os_flush s :=
    let (r, w') := os_flush os s.1 in (r, (w', s.2))
|}.

(** The exception a primitive raised, with its contexts. *)
Definition failure {A} (r : reply A) : list exn :=
  match r with
  | Done _ => []
  | Failed e c => e :: c
  end.

Definition raised (ev : event) : list exn :=
  match ev with
  | EvMakedirs _ _ r => failure r
  | EvOpen _ r => failure r
  | EvWrite _ _ r => failure r
  | EvClose _ r => failure r
  | EvPrint _ r => failure r
  end.

(** The exceptions raised in a log, those of the latest failing
    primitive first. *)
Fixpoint errors (log : list event) : list exn :=
  match log with
  | [] => []
  | ev :: log' => errors log' ++ raised ev
  end.

Definition is_print (ev : event) : bool :=
  match ev with EvPrint _ _ => true | _ => false end.

(** The calls to the file system, and the exceptions they raised. *)
Definition fs_calls (log : list event) : list event :=
  log ≫= fun ev => if is_print ev then [] else [ev].

Definition fs_errors (log : list event) : list exn := errors (fs_calls log).

(** The files opened for writing, the texts written and the descriptors
    closed in a log. *)
Definition opened (log : list event) : list string :=
  log ≫= fun ev => match ev with EvOpen p _ => [p] | _ => [] end.
Definition written (log : list event) : list (fd * string) :=
  log ≫= fun ev => match ev with EvWrite f t _ => [(f, t)] | _ => [] end.
Definition closed (log : list event) : list fd :=
  log ≫= fun ev => match ev with EvClose f _ => [f] | _ => [] end.
Definition made (log : list event) : list (string * bool) :=
  log ≫= fun ev => match ev with EvMakedirs p ok _ => [(p, ok)] | _ => [] end.
(** The files opened with success, each with its descriptor. *)
Definition descriptors (log : list event) : list (string * fd) :=
  log ≫= fun ev => match ev with EvOpen p (Done f) => [(p, f)] | _ => [] end.
(** The lines the console took, and the lines it was asked to take. *)
Definition printed (log : list event) : list string :=
  log ≫= fun ev => match ev with EvPrint l (Done _) => [l] | _ => [] end.
Definition print_calls (log : list event) : list string :=
  log ≫= fun ev => match ev with EvPrint l _ => [l] | _ => [] end.

(** ** The runs of [main] *)

(** The lines [main] prints after the write. *)
Definition guidance_lines (file : string) : list string :=
  [ "✓ Generated SVG icon at: " +:+ svg_path file;
    nl +:+ "Next steps:";
    "1. Convert SVG to PNG using online tool or ImageMagick:";
    "   - Online: https://cloudconvert.com/svg-to-png";
    "   - Or install ImageMagick: brew install imagemagick";
    "   - Then run: convert -background none -size 1024x1024 icon.svg icon.png";
    nl +:+ "2. Generate Tauri icons:";
    "   npm run tauri icon src-tauri/icons/icon.png" ].

(** The prints of [lines] one after the other, up to the first that
    raises: the result, the final world and the log. *)
Inductive prints {W} (os : OS W) :
  list string → W → result unit → W → list event → Prop :=
| prints_done w : prints os [] w (Ok tt) w []
| prints_line l ls w w1 r w' log :
    os_print os l w = (Done tt, w1) →
    prints os ls w1 r w' log →
    prints os (l :: ls) w r w' (EvPrint l (Done tt) :: log)
| prints_fails l ls w e c w1 :
    os_print os l w = (Failed e c, w1) →
    prints os (l :: ls) w (Raise e c) w1 [EvPrint l (Failed e c)].

(** The same as a computation. *)
Fixpoint print_all {W} (os : OS W) (lines : list string) : M W unit :=
  match lines with
  | [] => mret tt
  | l :: ls => print os l;; print_all os ls
  end.

(** The ways a run of [main] can go, with the result, the final world
    and the log of each: a failure of [makedirs], of the open, of the
    write, of the close or of both, and the runs that close the file and
    go on to print. *)
Inductive run {W} (os : OS W) (file : string) (w : W) :
  result unit → W → list event → Prop :=
| run_makedirs_fails e c w1 :
    os_makedirs os (output_dir file) true w = (Failed e c, w1) →
    run os file w (Raise e c) w1
      [EvMakedirs (output_dir file) true (Failed e c)]
| run_open_fails w1 e c w2 :
    os_makedirs os (output_dir file) true w = (Done tt, w1) →
    os_open_w os (svg_path file) w1 = (Failed e c, w2) →
    run os file w (Raise e c) w2
      [EvMakedirs (output_dir file) true (Done tt);
       EvOpen (svg_path file) (Failed e c)]
| run_write_fails w1 f w2 e c w3 w4 :
    os_makedirs os (output_dir file) true w = (Done tt, w1) →
    os_open_w os (svg_path file) w1 = (Done f, w2) →
    os_write os f svg w2 = (Failed e c, w3) →
    os_close os f w3 = (Done tt, w4) →
    run os file w (Raise e c) w4
      [EvMakedirs (output_dir file) true (Done tt);
       EvOpen (svg_path file) (Done f);
       EvWrite f svg (Failed e c);
       EvClose f (Done tt)]
| run_write_and_close_fail w1 f w2 e c w3 e' c' w4 :
    os_makedirs os (output_dir file) true w = (Done tt, w1) →
    os_open_w os (svg_path file) w1 = (Done f, w2) →
    os_write os f svg w2 = (Failed e c, w3) →
    os_close os f w3 = (Failed e' c', w4) →
    run os file w (Raise e' (c' ++ e :: c)) w4
      [EvMakedirs (output_dir file) true (Done tt);
       EvOpen (svg_path file) (Done f);
       EvWrite f svg (Failed e c);
       EvClose f (Failed e' c')]
| run_close_fails w1 f w2 n w3 e c w4 :
    os_makedirs os (output_dir file) true w = (Done tt, w1) →
    os_open_w os (svg_path file) w1 = (Done f, w2) →
    os_write os f svg w2 = (Done n, w3) →
    os_close os f w3 = (Failed e c, w4) →
    run os file w (Raise e c) w4
      [EvMakedirs (output_dir file) true (Done tt);
       EvOpen (svg_path file) (Done f);
       EvWrite f svg (Done n);
       EvClose f (Failed e c)]
| run_closed w1 f w2 n w3 w4 r w' plog :
    os_makedirs os (output_dir file) true w = (Done tt, w1) →
    os_open_w os (svg_path file) w1 = (Done f, w2) →
    os_write os f svg w2 = (Done n, w3) →
    os_close os f w3 = (Done tt, w4) →
    prints os (guidance_lines file) w4 r w' plog →
    run os file w r w'
      ([EvMakedirs (output_dir file) true (Done tt);
        EvOpen (svg_path file) (Done f);
        EvWrite f svg (Done n);
        EvClose f (Done tt)] ++ plog).

(** ** An in-memory POSIX file system *)

Module MemFS.

(** A location is the list of the names from it up to the root: the
    innermost name comes first and [[]] is the root directory. *)
Inductive node : Type :=
| Dir
| File (content : string).

Record world : Type := World {
  (** the directories and regular files below the root *)
  nodes : gmap (list string) node;
  (** the working directory of the process *)
  cwd : list string;
  (** the file system is mounted read-only *)
  readonly : bool;
  (** free space, in bytes *)
  free : nat;
  (** the open file objects: the file written and the text not yet flushed *)
  handles : gmap nat (list string * string);
  (** what was printed, a line per call *)
  stdout : list string;
  (** the console: given what was printed and the line to print, the
      exception the print raises, if it does (an encoding that lacks a
      character of the line, a closed pipe) *)
  console : list string -> string -> option (exn * list exn)
}.

Definition node_at (w : world) (l : list string) : option node :=
  match l with
  | [] => Some Dir
  | _ => nodes w !! l
  end.

Definition size_of (o : option node) : nat :=
  match o with
  | Some (File c) => String.length c
  | _ => 0
  end.

(** [p.split('/')] *)
Fixpoint split_sep (p : string) : list string :=
  match p with
  | EmptyString => [EmptyString]
  | String c p' =>
      if Ascii.eqb c "/" then EmptyString :: split_sep p'
      else match split_sep p' with
           | x :: r => String c x :: r
           | [] => [String c EmptyString]
           end
  end.

(** Where a path starts: at the root when it is absolute. *)
Definition origin (w : world) (p : string) : list string :=
  if starts_with "/" p then [] else cwd w.

(** One component of a path, followed from [cur]. *)
Definition step (cur : list string) (c : string) : list string :=
  if decide (c = "" ∨ c = ".") then cur
  else if decide (c = "..") then tail cur
  else c :: cur.

(** Path resolution: every location on the way has to be a directory. *)
Fixpoint resolve (w : world) (cur : list string) (cs : list string) : option (list string) :=
  match cs with
  | [] => Some cur
  | c :: cs' =>
      match node_at w (step cur c) with
      | Some Dir => resolve w (step cur c) cs'
      | _ => None
      end
  end.

Definition add_dir (l : list string) (w : world) : world :=
  World (<[l := Dir]> (nodes w)) (cwd w) (readonly w) (free w) (handles w) (stdout w)
        (console w).

(** os.makedirs, component by component: a directory that is there is
    entered, a missing one is created, a regular file in the way is an
    error; the last directory may be there only if [exist_ok]. *)
Fixpoint mkdir_p (exist_ok : bool) (cs : list string) (cur : list string) (w : world)
  : reply unit * world :=
  match cs with
  | [] => (Done tt, w)
  | c :: cs' =>
      let nxt := step cur c in
      match node_at w nxt with
      | Some Dir =>
          if negb exist_ok && bool_decide (cs' = []) then (Failed EEXIST [], w)
          else mkdir_p exist_ok cs' nxt w
      | Some (File _) =>
          (Failed (if bool_decide (cs' = []) then EEXIST else ENOTDIR) [], w)
      | None =>
          if readonly w then (Failed EROFS [], w)
          else mkdir_p exist_ok cs' nxt (add_dir nxt w)
      end
  end.

Definition makedirs (p : string) (exist_ok : bool) (w : world) : reply unit * world :=
  if String.eqb p "" then (Failed ENOENT [], w)
  else mkdir_p exist_ok (split_sep p) (origin w p) w.

(** The location a path names: its directory part resolved, then its
    last component. *)
Definition locate (w : world) (p : string) : option (list string) :=
  if String.eqb p "" then None
  else
    let cs := split_sep p in
    match resolve w (origin w p) (removelast cs) with
    | Some d =>
        let name := List.last cs "" in
        if decide (name = "" ∨ name = "." ∨ name = "..") then None
        else Some (name :: d)
    | None => None
    end.

(** open(p, 'w'): the file is created or truncated and a file object
    with nothing pending is returned. *)
Definition open_w (p : string) (w : world) : reply fd * world :=
  match locate w p with
  | None =>
      (Failed (if String.eqb p "" then ENOENT
               else match resolve w (origin w p) (removelast (split_sep p)) with
                    | Some _ => EISDIR
                    | None => ENOENT
                    end) [], w)
  | Some l =>
      match node_at w l with
      | Some Dir => (Failed EISDIR [], w)
      | o =>
          if readonly w then (Failed EROFS [], w)
          else
            let f := fresh (dom (handles w)) in
            (Done f,
             World (<[l := File ""]> (nodes w)) (cwd w) (readonly w)
                   (free w + size_of o) (<[f := (l, "")]> (handles w)) (stdout w)
                   (console w))
      end
  end.

(** f.write(text): text mode on POSIX keeps the characters as they are
    (the line separator is the line feed); the text stays in the buffer
    of the file object until it is flushed. *)
Definition write (f : fd) (text : string) (w : world) : reply nat * world :=
  match handles w !! f with
  | None => (Failed EBADF [], w)
  | Some (l, pending) =>
      (Done (String.length text),
       World (nodes w) (cwd w) (readonly w) (free w)
             (<[f := (l, pending +:+ text)]> (handles w)) (stdout w) (console w))
  end.

(** Writing [text] from the start of a file that holds [old]: the
    characters of [old] beyond the ones written stay. *)
Definition overwrite (text old : string) : string :=
  text +:+ Text.drop (String.length text) old.

(** f.close(): the descriptor is released, and the pending text is
    flushed first, from the start of the file as it is now: as much of
    it as there is room for reaches the file, and the close fails when
    that is not all of it.  The failing close raises twice, when the text
    layer flushes and when the buffer under it is closed, so that its
    exception has the first one as its context.  A file that is no
    longer there is not made anew. *)
Definition close (f : fd) (w : world) : reply unit * world :=
  match handles w !! f with
  | None => (Done tt, w)
  | Some (l, pending) =>
      let old := match node_at w l with Some (File c) => c | _ => "" end in
      let n := String.length pending `min` (String.length old + free w) in
      (if bool_decide (n < String.length pending) then Failed ENOSPC [ENOSPC]
       else Done tt,
       World (match node_at w l with
              | Some (File c) =>
                  <[l := File (overwrite (String.substring 0 n pending) c)]> (nodes w)
              | _ => nodes w
              end)
             (cwd w) (readonly w) (free w - (n - String.length old))
             (delete f (handles w)) (stdout w) (console w))
  end.

(** print(line): the console takes the line or raises. *)
Definition print (line : string) (w : world) : reply unit * world :=
  match console w (stdout w) line with
  | Some (e, c) => (Failed e c, w)
  | None =>
      (Done tt,
       World (nodes w) (cwd w) (readonly w) (free w) (handles w)
             (stdout w ++ [line]) (console w))
  end.

(** The console is written through: a line is on it when its print
    returns, as on a terminal or an unbuffered stream, and the flush at
    exit finds nothing left to write. *)
Definition flush (w : world) : reply unit * world := (Done tt, w).

(** [w] after [lines] were printed. *)
Definition say (lines : list string) (w : world) : world :=
  World (nodes w) (cwd w) (readonly w) (free w) (handles w)
        (stdout w ++ lines) (console w).

(** The console takes [lines] one after the other, having printed
    [out]. *)
Fixpoint accepts (fault : list string -> string -> option (exn * list exn))
    (out lines : list string) : bool :=
  match lines with
  | [] => true
  | l :: ls =>
      match fault out l with
      | None => accepts fault (out ++ [l]) ls
      | Some _ => false
      end
  end.

Definition memfs : OS world := {|
  os_makedirs := makedirs;
  os_open_w := open_w;
  os_write := write;
  os_close := close;
  os_print := print;
  os_flush := flush
|}.

(** The same file system with [sys.stdout] redirected to a device that
    is full: the stream is block-buffered, so that the prints return,
    and the flush at exit fails. *)
Definition memfs_stdout_full : OS world := {|
  os_makedirs := makedirs;
  os_open_w := open_w;
  os_write := write;
  os_close := close;
  os_print := fun _ w => (Done tt, w);
  os_flush := fun w => (Failed ENOSPC [], w)
|}.

(** Reading a file back. *)
Definition read_file (w : world) (p : string) : option string :=
  match locate w p with
  | Some l => match node_at w l with Some (File c) => Some c | _ => None end
  | None => None
  end.

Definition is_dir (w : world) (p : string) : bool :=
  bool_decide (p ≠ "" ∧ is_Some (resolve w (origin w p) (split_sep p))).

(** The locations a path goes through from [cur], and where it ends. *)
Fixpoint trail (cur : list string) (cs : list string) : list (list string) :=
  match cs with
  | [] => []
  | c :: cs' => step cur c :: trail (step cur c) cs'
  end.

Definition place (w : world) (p : string) : list string :=
  foldl step (origin w p) (split_sep p).

Definition is_file (o : option node) : bool :=
  match o with Some (File _) => true | _ => false end.

Definition is_directory (o : option node) : bool :=
  match o with Some Dir => true | _ => false end.

(** [w'] is [w] with some missing directories created. *)
Definition grows (w w' : world) : Prop :=
  cwd w' = cwd w ∧ readonly w' = readonly w ∧ free w' = free w ∧
  handles w' = handles w ∧ (stdout w' = stdout w ∧ console w' = console w) ∧
  ∀ l, node_at w' l = node_at w l ∨ (node_at w l = None ∧ node_at w' l = Some Dir).

(** [w] with the file at [l] holding [text]: what a complete write of
    [text] to [l] leaves. *)
Definition stored (l : list string) (text : string) (w : world) : world :=
  World (<[l := File text]> (nodes w)) (cwd w) (readonly w)
        (free w + size_of (node_at w l) - String.length text) (handles w) (stdout w)
        (console w).

(** A console that takes every line, and one whose encoding has the
    ASCII characters only: printing any other character raises
    [UnicodeEncodeError]. *)
Definition utf8_console (out : list string) (line : string) : option (exn * list exn) :=
  None.

Fixpoint is_ascii (s : string) : bool :=
  match s with
  | EmptyString => true
  | String (Ascii _ _ _ _ _ _ _ high) s' => negb high && is_ascii s'
  end.

Definition ascii_console (out : list string) (line : string) : option (exn * list exn) :=
  if is_ascii line then None else Some (UnicodeEncodeError, []).

End MemFS.

(** ** The script on the in-memory file system *)

(** The location of the file the script writes: [icon.svg] in the place
    of the output directory. *)
Definition target (w : MemFS.world) (file : string) : list string :=
  "icon.svg" :: MemFS.place w (output_dir file).

(** The locations the output directory goes through. *)
Definition way (w : MemFS.world) (file : string) : list (list string) :=
  MemFS.trail (MemFS.origin w (output_dir file)) (MemFS.split_sep (output_dir file)).

(** The state of the file system in which the script can write its
    file: not read-only, no regular file where the output directory or
    one of the directories on the way to it has to be, no directory where
    [icon.svg] has to be, and room for the document once the old file is
    truncated. *)
Definition writable (w : MemFS.world) (file : string) : bool :=
  negb (MemFS.readonly w) &&
  forallb (fun l => negb (MemFS.is_file (MemFS.node_at w l))) (way w file) &&
  negb (MemFS.is_directory (MemFS.node_at w (target w file))) &&
  negb (bool_decide (target w file ∈ way w file)) &&
  bool_decide (String.length svg ≤
               MemFS.free w + MemFS.size_of (MemFS.node_at w (target w file)))%nat.

(** The world a successful run leaves: the directories made, the
    document stored, the guidance printed. *)
Definition final (file : string) (w : MemFS.world) : MemFS.world :=
  MemFS.say (guidance_lines file)
    (MemFS.stored (target w file) svg
       (MemFS.makedirs (output_dir file) true w).2).

(** The world once the file is written and closed. *)
Definition filed (file : string) (w : MemFS.world) : MemFS.world :=
  MemFS.stored (target w file) svg (MemFS.makedirs (output_dir file) true w).2.

(** The console of [w] takes the lines [main] prints. *)
Definition printable (w : MemFS.world) (file : string) : bool :=
  MemFS.accepts (MemFS.console w) (MemFS.stdout w) (guidance_lines file).

(** ** Nesting of the elements of a document *)

Module Nesting.

Inductive token : Type :=
| Open (name : string)
| Close (name : string)
| Empty (name : string).

(** The text of a start tag ends with a slash: the element is empty. *)
Fixpoint self_closing (t : string) : bool :=
  match t with
  | EmptyString => false
  | String c EmptyString => Ascii.eqb c "/"
  | String _ t' => self_closing t'
  end.

(** The tags of [s] in document order: start tags, end tags and empty
    elements; comments, the XML declaration and processing instructions
    are skipped as [Xml.scan] skips them. *)
Fixpoint tokens (in_comment : bool) (s : string) : list token :=
  match s with
  | EmptyString => []
  | String c s' =>
      if in_comment then tokens (negb (starts_with "-->" s)) s'
      else if starts_with "<!--" s then tokens true s'
      else if Ascii.eqb c "<" then
        match s' with
        | String "/" s'' => Close (Xml.tag_name s'') :: tokens false s'
        | String "?" _ | String "!" _ => tokens false s'
        | _ =>
            let t := Text.take_until ">" s' in
            (if self_closing t then Empty (Xml.tag_name t) else Open (Xml.tag_name t))
              :: tokens false s'
        end
      else tokens false s'
  end.

(** Reading the tags with the stack of the elements that are open:
    an end tag has to close the innermost open element, and at the end
    no element is open.  The result is the number of outermost
    elements. *)
Fixpoint nest (stack : list string) (roots : nat) (ts : list token) : option nat :=
  match ts with
  | [] => match stack with [] => Some roots | _ => None end
  | Open n :: ts' =>
      nest (n :: stack) (match stack with [] => S roots | _ => roots end) ts'
  | Empty n :: ts' =>
      nest stack (match stack with [] => S roots | _ => roots end) ts'
  | Close n :: ts' =>
      match stack with
      | m :: stack' => if String.eqb m n then nest stack' roots ts' else None
      | [] => None
      end
  end.

(** A document is well nested when its tags close in order and it has
    one outermost element. *)
Definition well_nested (s : string) : bool :=
  bool_decide (nest [] 0 (tokens false s) = Some 1).



End Nesting.

(** ** Sample states *)

Definition sample_file : string := "scripts/generate_icon.py".

(** The application checked out in [/app], run from there, with the
    directory [src-tauri] still to be made. *)
Definition sample_world : MemFS.world :=
  MemFS.World
    {[ ["app"] := MemFS.Dir;
       ["scripts"; "app"] := MemFS.Dir;
       ["generate_icon.py"; "scripts"; "app"] := MemFS.File "#!/usr/bin/env python3" ]}
    ["app"] false 4096 ∅ [] MemFS.utf8_console.

(** The same on a read-only file system, on a disk with 100 bytes
    left, and with a console that encodes ASCII only. *)
Definition sample_readonly : MemFS.world :=
  MemFS.World (MemFS.nodes sample_world) ["app"] true 4096 ∅ [] MemFS.utf8_console.

Definition sample_full : MemFS.world :=
  MemFS.World (MemFS.nodes sample_world) ["app"] false 100 ∅ [] MemFS.utf8_console.

Definition sample_ascii : MemFS.world :=
  MemFS.World (MemFS.nodes sample_world) ["app"] false 4096 ∅ [] MemFS.ascii_console.

(** The application with an icon already in place, longer than the
    document, and no room left on the disk. *)
Definition sample_stale : MemFS.world :=
  MemFS.World
    (<[ ["icon.svg"; "icons"; "src-tauri"; "app"] :=
          MemFS.File (svg +:+ "<!-- an older, longer icon -->") ]>
       (<[ ["icons"; "src-tauri"; "app"] := MemFS.Dir ]>
          (<[ ["src-tauri"; "app"] := MemFS.Dir ]> (MemFS.nodes sample_world))))
    ["app"] false 0 ∅ [] MemFS.utf8_console.

(** The logged run of the script from a sample state. *)
Definition sample_run (w : MemFS.world) : result unit * (MemFS.world * list event) :=
  main (traced MemFS.memfs) sample_file (w, []).

(** * Properties *)

(** ** The document *)

Section TextFacts.

Lemma append_cons (x : ascii) (a b : string) :
  String x a +:+ b = String x (a +:+ b).
Proof. reflexivity. Qed.

Lemma append_assoc (a b c : string) : (a +:+ b) +:+ c = a +:+ b +:+ c.
Proof. induction a as [|x a IH]; [done | by rewrite !append_cons, IH]. Qed.



(** [lit] changes apostrophes into double quotes and nothing else. *)
Lemma lit_get (s : string) (n : nat) :
  String.get n (lit s) =
  (fun c => if Ascii.eqb c apostrophe then quot else c) <$> String.get n s.
Proof.
  revert n. induction s as [|c s IH]; intros [|n]; simpl; auto.
Qed.

Lemma lit_length (s : string) : String.length (lit s) = String.length s.
Proof. induction s; simpl; congruence. Qed.

End TextFacts.

(** The text the script writes is the literal of the source: 40 lines,
    2019 characters, the last of which closes the [svg] element. *)
Lemma svg_size :
  String.length svg = 2019 ∧ Text.count_char LF svg = 39 ∧
  Text.count_char apostrophe svg = 0 ∧ Text.last_char svg = Some ">"%char.
Proof. by vm_compute. Qed.

(** C1. [generate_icon_svg] takes no argument, never raises, leaves the
    world as it is and returns the same string at every call: two calls,
    whatever the operating system and the states they are made in,
    return equal strings. *)
Theorem generate_icon_svg_constant :
  ∀ (W1 W2 : Type) (os1 : OS W1) (os2 : OS W2) (w1 : W1) (w2 : W2),
    ∃ text : string,
      generate_icon_svg w1 = (Ok text, w1) ∧
      generate_icon_svg w2 = (Ok text, w2) ∧
      text = svg.
Proof. intros. exists svg. by repeat split. Qed.


(** Elements are counted by the name of their start tag: as a bare
    text [<line] also starts the two [linearGradient] tags. *)
Remark line_text_occurrences :
  Text.occurrences "<line" svg = 8 ∧ Text.occurrences "<linearGradient" svg = 2 ∧
  Text.occurrences "<circle" svg = 5 ∧ Text.occurrences "<path" svg = 2.
Proof. by vm_compute. Qed.

(** C10. Every gradient a shape refers to is declared: the names in the
    [url(#...)] references of the document, all of which stand in the
    [fill] or [stroke] attribute of an element, are ids of gradients of
    the [defs] section, which declares [bgGrad] and [iconGrad]. *)
Theorem gradient_references_defined :
  Forall (fun r => r ∈ Xml.gradient_ids svg) (Xml.url_refs svg) ∧
  Xml.gradient_ids svg = ["bgGrad"; "iconGrad"] ∧
  Xml.url_refs svg =
    (Xml.start_tags svg ≫= fun t => Xml.url_refs_of "fill" t ++ Xml.url_refs_of "stroke" t) ∧
  length (Xml.url_refs svg) = 13.
Proof.
  split_and!; try by vm_compute.
  apply (bool_decide_unpack _). by vm_compute.
Qed.

(** ** The output path *)

Section PathFacts.

Import Posixpath.

Lemma append_eqb_nil (a b : string) :
  b ≠ "" → String.eqb (a +:+ b) "" = false.
Proof. intros Hb. by destruct a, b. Qed.

Lemma ends_with_sep_app (a b : string) :
  b ≠ "" → ends_with_sep (a +:+ b) = ends_with_sep b.
Proof.
  intros Hb. induction a as [|x a IH]; [done|].
  rewrite append_cons, <- IH.
  destruct (a +:+ b) eqn:E; [|done].
  destruct a, b; [done | discriminate E ..].
Qed.

Lemma join_step_name (path b : string) :
  starts_with sep b = false → join_step path b = dir_prefix path +:+ b.
Proof.
  intros Hb. unfold join_step, dir_prefix. rewrite Hb.
  destruct (String.eqb path "" || ends_with_sep path); [done|].
  by rewrite append_assoc.
Qed.

Lemma dir_prefix_app (a b : string) :
  b ≠ "" → ends_with_sep b = false → dir_prefix (a +:+ b) = a +:+ b +:+ "/".
Proof.
  intros Hb Hs. unfold dir_prefix.
  rewrite append_eqb_nil, ends_with_sep_app, Hs by done. simpl.
  by rewrite append_assoc.
Qed.

Lemma output_dir_eq (file : string) :
  output_dir file = dir_prefix (dirname file) +:+ "../src-tauri/icons".
Proof.
  unfold output_dir, join. simpl.
  rewrite (join_step_name _ "..") by done.
  rewrite (join_step_name _ "src-tauri") by done.
  rewrite dir_prefix_app by done.
  rewrite (join_step_name _ "icons") by done.
  rewrite dir_prefix_app by (rewrite ?ends_with_sep_app; done).
  by rewrite !append_assoc.
Qed.

Lemma svg_path_eq (file : string) :
  svg_path file = dir_prefix (dirname file) +:+ "../src-tauri/icons/icon.svg".
Proof.
  unfold svg_path, join. simpl.
  rewrite (join_step_name _ "icon.svg") by done.
  rewrite output_dir_eq, dir_prefix_app by done.
  by rewrite !append_assoc.
Qed.

(** [dirname] and [join] on a few paths, as Python computes them. *)
Example dirname_examples :
  dirname "/app/scripts/generate_icon.py" = "/app/scripts" ∧
  dirname "scripts/generate_icon.py" = "scripts" ∧
  dirname "generate_icon.py" = "" ∧
  dirname "/generate_icon.py" = "/" ∧
  dirname "//generate_icon.py" = "//" ∧
  dirname "scripts//generate_icon.py" = "scripts".
Proof. by vm_compute. Qed.

Example join_examples :
  join "/app/scripts" [".."; "src-tauri"; "icons"] = "/app/scripts/../src-tauri/icons" ∧
  join "" [".."; "src-tauri"; "icons"] = "../src-tauri/icons" ∧
  join "/" [".."; "src-tauri"; "icons"] = "/../src-tauri/icons" ∧
  join "a" ["/b"; "c"] = "/b/c" ∧
  svg_path "scripts/generate_icon.py" = "scripts/../src-tauri/icons/icon.svg".
Proof. by vm_compute. Qed.

End PathFacts.

(** ** Every run is one of these *)

Section Runs.

Context {W : Type} (os : OS W) (file : string).

(** [main] as its calls, with the eight prints gathered. *)
Lemma main_unfold {V : Type} (o : OS V) (w : V) :
  main o file w =
  match os_makedirs o (output_dir file) true w with
  | (Failed e c, w1) => (Raise e c, w1)
  | (Done _, w1) =>
      match with_open o (svg_path file) (fun f => write o f svg) w1 with
      | (Raise e c, w2) => (Raise e c, w2)
      | (Ok _, w2) => print_all o (guidance_lines file) w2
      end
  end.
Proof.
  unfold main, generate_icon_svg, makedirs, print, call, mbind, mret, M_bind, M_ret,
    guidance_lines, print_all.
  destruct (os_makedirs o (output_dir file) true w) as [[[]|e c] w1]; [|done].
  destruct (with_open o (svg_path file) _ w1) as [[n|e c] w2]; [|done].
  unfold print, call, mbind, mret, M_bind, M_ret.
  repeat match goal with
         | |- context [os_print o ?l ?x] =>
             destruct (os_print o l x) as [[[]|? ?] ?]; try done
         end.
Qed.

Lemma prints_print_all (lines : list string) (w w' : W) r log :
  prints os lines w r w' log → print_all os lines w = (r, w').
Proof.
  induction 1 as [w|l ls w w1 r w' log E _ IH|l ls w e c w1 E]; [done|..];
    simpl; unfold print, call, mbind, M_bind; by rewrite E.
Qed.

(** The prints, logged. *)
Lemma print_all_prints (lines : list string) :
  ∀ w, ∃ r w' plog,
    prints os lines w r w' plog ∧
    ∀ log0, print_all (traced os) lines (w, log0) = (r, (w', log0 ++ plog)).
Proof.
  induction lines as [|l ls IH]; intros w.
  { exists (Ok tt), w, []. split; [constructor|].
    intros log0. by rewrite app_nil_r. }
  destruct (os_print os l w) as [[[]|e c] w1] eqn:E.
  - destruct (IH w1) as (r & w' & plog & Hp & Hlog).
    exists r, w', (EvPrint l (Done tt) :: plog). split; [by econstructor|].
    intros log0. simpl. unfold print, call, mbind, M_bind. simpl. rewrite E.
    rewrite Hlog. by rewrite <- app_assoc.
  - exists (Raise e c), w1, [EvPrint l (Failed e c)].
    split; [by constructor|].
    intros log0. simpl. unfold print, call, mbind, M_bind. simpl. by rewrite E.
Qed.

(** Every run of [main], logged, is one of these. *)
Lemma main_run (w : W) :
  ∃ r w' log,
    main (traced os) file (w, []) = (r, (w', log)) ∧ run os file w r w' log.
Proof.
  rewrite main_unfold. unfold with_open, write, call.
  cbn [os_makedirs os_open_w os_write os_close traced fst snd].
  destruct (os_makedirs os (output_dir file) true w) as [[[]|e c] w1] eqn:E1.
  2:{ eexists _, _, _. split; [done|]. by eapply run_makedirs_fails. }
  cbn [os_makedirs os_open_w os_write os_close traced fst snd].
  destruct (os_open_w os (svg_path file) w1) as [[f|e c] w2] eqn:E2.
  2:{ eexists _, _, _. split; [done|]. by eapply run_open_fails. }
  cbn [os_makedirs os_open_w os_write os_close traced fst snd].
  destruct (os_write os f svg w2) as [[n|e c] w3] eqn:E3;
    cbn [os_makedirs os_open_w os_write os_close traced fst snd];
    destruct (os_close os f w3) as [[[]|e' c'] w4] eqn:E4.
  - destruct (print_all_prints (guidance_lines file) w4) as (r & w' & plog & Hp & Hlog).
    rewrite Hlog. eexists _, _, _. split; [done|]. by eapply run_closed.
  - eexists _, _, _. split; [done|]. by eapply run_close_fails.
  - eexists _, _, _. split; [done|]. by eapply run_write_fails.
  - eexists _, _, _. split; [done|]. by eapply run_write_and_close_fail.
Qed.

Lemma main_run_inv (w : W) r w' log :
  main (traced os) file (w, []) = (r, (w', log)) → run os file w r w' log.
Proof.
  intros E. destruct (main_run w) as (r0 & w0 & log1 & E' & Hrun).
  congruence.
Qed.

(** The log is an observation: it changes neither the result nor the
    world. *)
Lemma run_main (w : W) r w' log :
  run os file w r w' log → main os file w = (r, w').
Proof.
  intros Hrun. rewrite main_unfold. unfold with_open, write, call.
  destruct Hrun as [e c w1 Emk|w1 e c w2 Emk Eo|w1 f w2 e c w3 w4 Emk Eo Ew Ec
                   |w1 f w2 e c w3 e' c' w4 Emk Eo Ew Ec
                   |w1 f w2 n w3 e c w4 Emk Eo Ew Ec
                   |w1 f w2 n w3 w4 r w' plog Emk Eo Ew Ec Hp];
    rewrite Emk; try rewrite Eo; try rewrite Ew; try rewrite Ec; try done.
  by apply prints_print_all in Hp.
Qed.

Lemma main_inv (w : W) r w' :
  main os file w = (r, w') →
  ∃ log, run os file w r w' log ∧
         main (traced os) file (w, []) = (r, (w', log)).
Proof.
  intros E. destruct (main_run w) as (r0 & w0 & log & E' & Hrun).
  pose proof (run_main _ _ _ _ Hrun) as E''.
  exists log. rewrite E in E''. by injection E'' as <- <-.
Qed.

Lemma script_status (w : W) r w' flushed w'' :
  main os file w = (r, w') → os_flush os w' = (flushed, w'') →
  script os file w = (status flushed r, w'').
Proof. unfold script. by intros -> ->. Qed.

(** What the prints leave in the log. *)
Lemma prints_log (lines : list string) (w w' : W) r plog :
  prints os lines w r w' plog →
  made plog = [] ∧ opened plog = [] ∧ written plog = [] ∧ closed plog = [] ∧
  descriptors plog = [] ∧
  fs_calls plog = [] ∧
  printed plog `prefix_of` lines ∧ print_calls plog `prefix_of` lines ∧
  errors plog = match r with Ok _ => [] | Raise e c => e :: c end ∧
  (r = Ok tt ↔ printed plog = lines) ∧
  (∀ p ro, EvOpen p ro ∉ plog).
Proof.
  induction 1 as [w|l ls w w1 r w' log E _ IH|l ls w e c w1 E].
  - split_and!; try done. intros p ro Hin. by apply elem_of_nil in Hin.
  - destruct IH as (? & ? & ? & ? & ? & Hf & Hpre & Hcalls & Herr & Hok & Hno).
    split_and!; try done.
    + by apply prefix_cons.
    + by apply prefix_cons.
    + rewrite <- Herr. simpl. by rewrite app_nil_r.
    + change (printed (EvPrint l (Done tt) :: log)) with (l :: printed log).
      rewrite Hok. split; [by intros -> | by intros [= ->]].
    + intros p ro [?|Hin]%elem_of_cons; [done|]. by eapply Hno.
  - split_and!; try done.
    + apply prefix_nil.
    + by apply prefix_cons, prefix_nil.
    + intros p ro [?|Hin]%elem_of_cons; [done|]. by apply elem_of_nil in Hin.
Qed.

End Runs.

(** ** The in-memory file system *)

Section FileSystemFacts.

Import MemFS.

Lemma node_at_cons (w : world) (c : string) (l : list string) :
  node_at w (c :: l) = nodes w !! (c :: l).
Proof. reflexivity. Qed.

Lemma node_at_None_ne (w : world) (l : list string) :
  node_at w l = None → l ≠ [].
Proof. by destruct l. Qed.

Lemma node_at_add_dir (w : world) (l l' : list string) :
  l ≠ [] →
  node_at (add_dir l w) l' = if decide (l = l') then Some Dir else node_at w l'.
Proof.
  intros Hl. destruct l' as [|c l'].
  - by rewrite decide_False.
  - rewrite !node_at_cons. simpl. apply lookup_insert.
Qed.

Lemma grows_refl (w : world) : grows w w.
Proof. unfold grows. naive_solver. Qed.

Lemma grows_trans (w1 w2 w3 : world) : grows w1 w2 → grows w2 w3 → grows w1 w3.
Proof.
  intros (?&?&?&?&[? ?]&H12) (?&?&?&?&[? ?]&H23).
  unfold grows. split_and!; try congruence.
  intros l. destruct (H12 l) as [E|[E1 E2]], (H23 l) as [E'|[E1' E2']];
    try (left; congruence); try (right; split; congruence).
Qed.

Lemma grows_add_dir (w : world) (l : list string) :
  node_at w l = None → grows w (add_dir l w).
Proof.
  intros Hl. unfold grows. split_and!; try done.
  intros l'. rewrite node_at_add_dir by by eapply node_at_None_ne.
  case_decide; [subst; by right | by left].
Qed.

(** A directory stays one, and so does a regular file. *)
Lemma grows_keeps (w w' : world) (l : list string) (x : node) :
  grows w w' → node_at w l = Some x → node_at w' l = Some x.
Proof.
  intros (_&_&_&_&_&H) E. destruct (H l) as [E'|[E1 _]]; congruence.
Qed.

Lemma grows_files (w w' : world) (l : list string) (c : string) :
  grows w w' → node_at w' l = Some (File c) ↔ node_at w l = Some (File c).
Proof.
  intros (_&_&_&_&_&H). destruct (H l) as [E'|[E1 E2]]; split; congruence.
Qed.

(** [makedirs] only creates directories, whether it succeeds or not. *)
Lemma mkdir_p_grows (ok : bool) (cs : list string) :
  ∀ cur w r w', mkdir_p ok cs cur w = (r, w') → grows w w'.
Proof.
  induction cs as [|c cs IH]; intros cur w r w' E; simpl in E.
  { injection E as _ <-. apply grows_refl. }
  destruct (node_at w (step cur c)) as [[|?]|] eqn:En.
  - destruct (negb ok && bool_decide (cs = [])).
    + injection E as _ <-. apply grows_refl.
    + by eapply IH.
  - injection E as _ <-. apply grows_refl.
  - destruct (readonly w).
    + injection E as _ <-. apply grows_refl.
    + eapply grows_trans; [by apply grows_add_dir | by eapply IH].
Qed.

(** Resolution succeeds exactly when the locations on the way are
    directories, and then ends where the path says. *)
Lemma resolve_Some (w : world) (cs : list string) :
  ∀ cur l,
    resolve w cur cs = Some l ↔
    l = foldl step cur cs ∧ Forall (fun x => node_at w x = Some Dir) (trail cur cs).
Proof.
  induction cs as [|c cs IH]; intros cur l; simpl.
  { split; [intros [= <-]; by split | intros [-> _]; done]. }
  destruct (node_at w (step cur c)) as [[|?]|] eqn:En.
  - rewrite IH. split; intros [-> HF]; split; try done.
    + by constructor.
    + by inversion HF.
  - split; [done | intros [_ HF]; inversion HF; congruence].
  - split; [done | intros [_ HF]; inversion HF; congruence].
Qed.

Lemma resolve_ext (w w' : world) (cs : list string) (cur : list string) :
  (∀ l, l ∈ trail cur cs → node_at w' l = node_at w l) →
  resolve w' cur cs = resolve w cur cs.
Proof.
  revert cur. induction cs as [|c cs IH]; intros cur H; simpl; [done|].
  rewrite H by (simpl; left). rewrite IH; [done|].
  intros l Hl. apply H. simpl. by right.
Qed.

(** After a successful [makedirs] every location on the way is a
    directory, and nothing else has changed. *)
Lemma mkdir_p_done (cs : list string) :
  ∀ cur w w',
    mkdir_p true cs cur w = (Done tt, w') →
    Forall (fun l => is_file (node_at w l) = false) (trail cur cs) ∧
    (∀ l, l ∈ trail cur cs → node_at w' l = Some Dir) ∧
    (∀ l, l ∉ trail cur cs → node_at w' l = node_at w l).
Proof.
  induction cs as [|c cs IH]; intros cur w w' E; simpl in E.
  { injection E as <-. split_and!; [constructor | | done].
    intros l Hl. by apply elem_of_nil in Hl. }
  destruct (node_at w (step cur c)) as [[|?]|] eqn:En; simpl in E; [| done |].
  - destruct (IH _ _ _ E) as (HF & Hin & Hout). split_and!.
    + constructor; [by rewrite En | done].
    + intros l [->|Hl]%elem_of_cons; [|by apply Hin].
      eapply grows_keeps; [by eapply mkdir_p_grows | done].
    + intros l [_ Hl]%not_elem_of_cons. by apply Hout.
  - destruct (readonly w) eqn:Ero; [done|].
    pose proof (node_at_None_ne _ _ En) as Hne.
    destruct (IH _ _ _ E) as (HF & Hin & Hout). split_and!.
    + constructor; [by rewrite En|].
      eapply Forall_impl; [exact HF|]. intros l. simpl.
      rewrite node_at_add_dir by done. case_decide; [subst; by rewrite En | done].
    + intros l [->|Hl]%elem_of_cons; [|by apply Hin].
      eapply grows_keeps; [by eapply mkdir_p_grows|].
      rewrite node_at_add_dir by done. by rewrite decide_True.
    + intros l [Hl1 Hl2]%not_elem_of_cons. rewrite Hout by done.
      rewrite node_at_add_dir by done. by rewrite decide_False.
Qed.

(** [makedirs] with [exist_ok] succeeds in a read-write file system
    when no regular file is in the way. *)
Lemma mkdir_p_succeeds (cs : list string) :
  ∀ cur w,
    readonly w = false →
    Forall (fun l => is_file (node_at w l) = false) (trail cur cs) →
    ∃ w', mkdir_p true cs cur w = (Done tt, w').
Proof.
  induction cs as [|c cs IH]; intros cur w Hro HF; simpl; [by eexists|].
  inversion HF as [|? ? Hc HF']; subst.
  destruct (node_at w (step cur c)) as [[|?]|] eqn:En; simpl; [by apply IH | done |].
  rewrite Hro. apply IH; [done|].
  eapply Forall_impl; [exact HF'|]. intros l. simpl.
  rewrite node_at_add_dir by by eapply node_at_None_ne.
  by case_decide.
Qed.

(** [makedirs] with [exist_ok] on a directory that is there does
    nothing, also in a read-only file system. *)
Lemma mkdir_p_exists (w : world) (cs : list string) :
  ∀ cur l, resolve w cur cs = Some l → mkdir_p true cs cur w = (Done tt, w).
Proof.
  induction cs as [|c cs IH]; intros cur l E; simpl in *; [done|].
  destruct (node_at w (step cur c)) as [[|?]|]; simpl; [by eapply IH | done..].
Qed.

Lemma mkdir_p_resolve (cs : list string) (cur : list string) (w w' : world) :
  mkdir_p true cs cur w = (Done tt, w') →
  resolve w' cur cs = Some (foldl step cur cs).
Proof.
  intros E. apply resolve_Some. split; [done|].
  apply Forall_forall. intros l Hl.
  by apply (mkdir_p_done _ _ _ _ E).
Qed.

Lemma substring_all (s : string) : String.substring 0 (String.length s) s = s.
Proof. induction s as [|c s IH]; simpl; [done | by rewrite IH]. Qed.

Lemma append_nil_r (a : string) : a +:+ "" = a.
Proof. induction a as [|x a IH]; [done | by rewrite append_cons, IH]. Qed.

Lemma overwrite_empty (text : string) : overwrite text "" = text.
Proof. unfold overwrite. destruct (String.length text); apply append_nil_r. Qed.

Lemma locate_not_root (w : world) (p : string) (l : list string) :
  locate w p = Some l → l ≠ [].
Proof.
  unfold locate. destruct (String.eqb p ""); [done|].
  destruct (resolve _ _ _); [|done]. case_decide; [done|]. by intros [= <-].
Qed.

(** Opening, writing and closing, one after the other: the text
    reaches the file as far as there is room for it, and the descriptor
    is released whether the close succeeds or not. *)
Lemma open_w_fails (p : string) (w w2 : world) (e : exn) (c : list exn) :
  open_w p w = (Failed e c, w2) → w2 = w.
Proof.
  unfold open_w. intros E.
  destruct (locate w p) as [l|]; [|by injection E].
  destruct (node_at w l) as [[|?]|]; try destruct (readonly w); by simplify_eq.
Qed.

Lemma open_w_done (p : string) (w w2 : world) (f : fd) :
  open_w p w = (Done f, w2) →
  ∃ l,
    locate w p = Some l ∧ l ≠ [] ∧ is_directory (node_at w l) = false ∧
    readonly w = false ∧ handles w !! f = None ∧
    w2 = World (<[l := File ""]> (nodes w)) (cwd w) (readonly w)
               (free w + size_of (node_at w l))
               (<[f := (l, "")]> (handles w)) (stdout w) (console w).
Proof.
  unfold open_w. intros Eo.
  destruct (locate w p) as [l|] eqn:Hloc; [|done]. exists l.
  pose proof (locate_not_root _ _ _ Hloc) as Hne.
  assert (handles w !! fresh (dom (handles w)) = None) as Hf.
  { apply not_elem_of_dom, is_fresh. }
  destruct (node_at w l) as [[|?]|]; [done|..];
    destruct (readonly w); by simplify_eq.
Qed.

Lemma close_empty_file (f : fd) (w : world) (l : list string) (text : string) :
  handles w !! f = Some (l, text) → node_at w l = Some (File "") →
  close f w =
  (if bool_decide (String.length text `min` free w < String.length text)
   then Failed ENOSPC [ENOSPC] else Done tt,
   World (<[l := File (String.substring 0 (String.length text `min` free w) text)]>
            (nodes w))
         (cwd w) (readonly w) (free w - String.length text `min` free w)
         (delete f (handles w)) (stdout w) (console w)).
Proof.
  intros Hf Hl. unfold close. rewrite Hf, Hl.
  change (String.length "" + free w) with (free w).
  by rewrite overwrite_empty, Nat.sub_0_r.
Qed.

Lemma open_write_close (p text : string) (w w2 w3 w4 : world) (f : fd) rw rc :
  open_w p w = (Done f, w2) →
  write f text w2 = (rw, w3) →
  close f w3 = (rc, w4) →
  ∃ l,
    locate w p = Some l ∧ is_directory (node_at w l) = false ∧
    readonly w = false ∧ handles w !! f = None ∧
    rw = Done (String.length text) ∧
    let n := String.length text `min` (free w + size_of (node_at w l)) in
    rc = (if bool_decide (n < String.length text) then Failed ENOSPC [ENOSPC]
          else Done tt) ∧
    w4 = World (<[l := File (String.substring 0 n text)]> (nodes w)) (cwd w)
               (readonly w) (free w + size_of (node_at w l) - n)
               (handles w) (stdout w) (console w).
Proof.
  intros Eo Ew Ec.
  destruct (open_w_done _ _ _ _ Eo) as (l & Hloc & Hne & Hd & Hro & Hf & ->).
  exists l. destruct l as [|c d]; [done|].
  unfold write in Ew. cbn [handles] in Ew. rewrite lookup_insert_eq in Ew.
  injection Ew as <- <-.
  rewrite (close_empty_file _ _ (c :: d) text) in Ec;
    [|apply lookup_insert_eq | rewrite node_at_cons; apply lookup_insert_eq].
  cbn [handles nodes free cwd readonly stdout console] in Ec.
  injection Ec as <- <-.
  split_and!; try done.
  rewrite !insert_insert_eq, delete_insert_eq, delete_id by done.
  done.
Qed.

Lemma open_w_succeeds (p : string) (w : world) (l : list string) :
  locate w p = Some l → is_directory (node_at w l) = false → readonly w = false →
  ∃ f w2, open_w p w = (Done f, w2).
Proof.
  unfold open_w. intros -> Hd ->.
  destruct (node_at w l) as [[|?]|]; [done|..]; by eexists _, _.
Qed.

(** A complete write leaves the text in the file. *)
Lemma stored_complete (l : list string) (text : string) (w : world) :
  let n := String.length text `min` (free w + size_of (node_at w l)) in
  ¬ n < String.length text →
  World (<[l := File (String.substring 0 n text)]> (nodes w)) (cwd w)
        (readonly w) (free w + size_of (node_at w l) - n)
        (handles w) (stdout w) (console w) = stored l text w.
Proof.
  intros n Hn. assert (n = String.length text) as -> by lia.
  by rewrite substring_all.
Qed.

(** Splitting a path at a separator. *)
Lemma split_sep_nonempty (p : string) : split_sep p ≠ [].
Proof.
  induction p as [|c p IH]; simpl; [done|].
  destruct (Ascii.eqb c "/"); [done|]. by destruct (split_sep p).
Qed.

Lemma split_sep_app_sep (a b : string) :
  split_sep (a +:+ "/" +:+ b) = split_sep a ++ split_sep b.
Proof.
  induction a as [|c a IH]; [done|].
  rewrite append_cons. simpl. rewrite IH.
  destruct (Ascii.eqb c "/"); [done|].
  pose proof (split_sep_nonempty a). by destruct (split_sep a).
Qed.

Lemma origin_app (w : world) (a b : string) :
  a ≠ "" → origin w (a +:+ b) = origin w a.
Proof. intros Ha. by destruct a. Qed.

End FileSystemFacts.

(** ** The script on the in-memory file system *)

Section ScriptOnMemFS.

Import MemFS Posixpath.

Variable file : string.

Lemma output_dir_nonempty : String.eqb (output_dir file) "" = false.
Proof. rewrite output_dir_eq. by apply append_eqb_nil. Qed.

Lemma output_dir_not_nil : output_dir file ≠ "".
Proof. intros E. pose proof output_dir_nonempty as H. by rewrite E in H. Qed.

Lemma svg_path_output_dir : svg_path file = output_dir file +:+ "/" +:+ "icon.svg".
Proof.
  unfold svg_path, join. simpl.
  rewrite (join_step_name _ "icon.svg") by done.
  rewrite output_dir_eq, dir_prefix_app by done.
  by rewrite !append_assoc.
Qed.

Lemma makedirs_output_dir (ok : bool) (w : world) :
  makedirs (output_dir file) ok w =
  mkdir_p ok (split_sep (output_dir file)) (origin w (output_dir file)) w.
Proof. unfold makedirs. by rewrite output_dir_nonempty. Qed.

Lemma locate_svg_path (w : world) :
  locate w (svg_path file) =
  (fun d => "icon.svg" :: d) <$>
    resolve w (origin w (output_dir file)) (split_sep (output_dir file)).
Proof.
  unfold locate. rewrite svg_path_output_dir.
  rewrite append_eqb_nil, split_sep_app_sep by done.
  rewrite origin_app by apply output_dir_not_nil.
  change (split_sep "icon.svg") with ["icon.svg"].
  rewrite removelast_last, last_last.
  by destruct (resolve _ _ _).
Qed.

Lemma makedirs_grows_aux (p : string) (ok : bool) (w w1 : world) r :
  makedirs p ok w = (r, w1) → grows w w1.
Proof.
  unfold makedirs. destruct (String.eqb p "").
  - intros [= _ <-]. apply grows_refl.
  - apply mkdir_p_grows.
Qed.

Lemma grows_way (w w1 : world) :
  grows w w1 → way w1 file = way w file ∧ target w1 file = target w file.
Proof.
  intros (Hcwd & _). unfold way, target, place, origin. by rewrite Hcwd.
Qed.

(** The prints change the console and nothing else; they all return
    exactly when the console accepts the lines. *)
Lemma say_nil (w : world) : say [] w = w.
Proof. unfold say. rewrite app_nil_r. by destruct w. Qed.

Lemma say_cons (l : string) (ls : list string) (w : world) :
  say ls (say [l] w) = say (l :: ls) w.
Proof. unfold say. cbn [nodes cwd readonly free handles stdout console]. by rewrite <- app_assoc. Qed.

Lemma print_inv (l : string) (w w1 : world) (r : reply unit) :
  print l w = (r, w1) →
  (console w (stdout w) l = None ∧ r = Done tt ∧ w1 = say [l] w) ∨
  (∃ e c, console w (stdout w) l = Some (e, c) ∧ r = Failed e c ∧ w1 = w).
Proof.
  unfold print. destruct (console w (stdout w) l) as [[e c]|]; intros [= <- <-].
  - right. by eexists _, _.
  - by left.
Qed.

Lemma prints_memfs (lines : list string) (w w' : world) r plog :
  prints memfs lines w r w' plog →
  w' = say (printed plog) w ∧
  (r = Ok tt ↔ accepts (console w) (stdout w) lines = true).
Proof.
  induction 1 as [w|l ls w w1 r w' log E _ IH|l ls w e c w1 E].
  - by rewrite say_nil.
  - apply print_inv in E as [(Hc & _ & ->)|(e & c & _ & [=] & _)].
    destruct IH as [-> IH]. split; [by rewrite say_cons|].
    rewrite IH. simpl. by rewrite Hc.
  - apply print_inv in E as [(_ & [=] & _)|(e' & c' & Hc & _ & ->)].
    split; [by rewrite say_nil|]. simpl. by rewrite Hc.
Qed.

Lemma accepts_prints (lines : list string) :
  ∀ w, accepts (console w) (stdout w) lines = true →
       prints memfs lines w (Ok tt) (say lines w)
         ((fun l => EvPrint l (Done tt)) <$> lines).
Proof.
  induction lines as [|l ls IH]; intros w Ha.
  { rewrite say_nil. constructor. }
  simpl in Ha. destruct (console w (stdout w) l) eqn:Hc; [done|].
  rewrite <- say_cons. eapply prints_line.
  - simpl. unfold print. by rewrite Hc.
  - by apply IH.
Qed.

(** In a [writable] state the file is made, written and closed. *)
Lemma writable_closes (w : world) :
  writable w file = true →
  ∃ w1 f w2 w3,
    makedirs (output_dir file) true w = (Done tt, w1) ∧
    open_w (svg_path file) w1 = (Done f, w2) ∧
    write f svg w2 = (Done (String.length svg), w3) ∧
    close f w3 = (Done tt, filed file w).
Proof.
  unfold writable. rewrite !andb_true_iff, !negb_true_iff, forallb_forall.
  rewrite bool_decide_eq_false, bool_decide_eq_true.
  intros ((((Hro & Hway) & Hdir) & Hnotin) & Hroom).
  destruct (mkdir_p_succeeds (split_sep (output_dir file))
              (origin w (output_dir file)) w Hro) as [w1 Emk].
  { apply Forall_forall. intros l Hl. apply negb_true_iff, Hway.
    by apply list_elem_of_In. }
  pose proof (mkdir_p_grows _ _ _ _ _ _ Emk) as Hg.
  pose proof (mkdir_p_done _ _ _ _ Emk) as (_ & Hin & Hout).
  pose proof (mkdir_p_resolve _ _ _ _ Emk) as Hres.
  assert (locate w1 (svg_path file) = Some (target w file)) as Hloc.
  { rewrite locate_svg_path. destruct Hg as (Hcwd & _).
    unfold origin in *. rewrite Hcwd. unfold origin in Hres. by rewrite Hres. }
  assert (node_at w1 (target w file) = node_at w (target w file)) as Ht.
  { by apply Hout. }
  assert (readonly w1 = false) as Hro1 by (destruct Hg as (_ & -> & _); done).
  destruct (open_w_succeeds _ _ _ Hloc) as (f & w2 & Eo); [by rewrite Ht | done |].
  destruct (write f svg w2) as [rw w3] eqn:Ew.
  destruct (close f w3) as [rc w4] eqn:Ec.
  destruct (open_write_close _ _ _ _ _ _ _ _ _ Eo Ew Ec)
    as (l & Hl & _ & _ & _ & -> & Hrc & Hw4).
  assert (l = target w file) as -> by congruence.
  assert (free w1 = free w) as Hfree by (destruct Hg as (_ & _ & -> & _); done).
  rewrite Ht, Hfree in Hrc, Hw4.
  rewrite bool_decide_eq_false_2 in Hrc by lia. subst rc.
  rewrite <- Hfree, <- Ht in Hw4. rewrite stored_complete in Hw4 by (rewrite Ht, Hfree; lia).
  rewrite <- makedirs_output_dir in Emk.
  exists w1, f, w2, w3. unfold filed. rewrite Emk. by subst w4.
Qed.

Lemma filed_console (w : world) :
  stdout (filed file w) = stdout w ∧ console (filed file w) = console w.
Proof.
  unfold filed. destruct (makedirs (output_dir file) true w) as [r w1] eqn:E.
  by destruct (makedirs_grows_aux _ _ _ _ _ E) as (_ & _ & _ & _ & [? ?] & _).
Qed.

(** The status with which the script ends on the in-memory file
    system. *)
Lemma script_memfs (w w' : world) (r : result unit) :
  main memfs file w = (r, w') → script memfs file w = (exit_status r, w').
Proof. intros E. by apply (script_status memfs file w r w' (Done tt) w'). Qed.

(** In a [writable] state the run ends as its prints do. *)
Lemma main_memfs_writable (w w' : world) r plog :
  writable w file = true →
  prints memfs (guidance_lines file) (filed file w) r w' plog →
  main memfs file w = (r, w').
Proof.
  intros (w1 & f & w2 & w3 & Emk & Eo & Ew & Ec)%writable_closes Hp.
  eapply run_main. by eapply run_closed.
Qed.

(** [writable] and [printable] are the conditions under which [main]
    succeeds. *)
Lemma main_memfs_succeeds (w : world) :
  writable w file = true → printable w file = true →
  main memfs file w = (Ok tt, final file w).
Proof.
  intros Hw Hp. eapply main_memfs_writable; [done|].
  apply accepts_prints. destruct (filed_console w) as [-> ->]. exact Hp.
Qed.

Lemma mkdir_p_readonly (ok : bool) (cs : list string) :
  ∀ cur w r w', readonly w = true → mkdir_p ok cs cur w = (r, w') → w' = w.
Proof.
  induction cs as [|c cs IH]; intros cur w r w' Hro E; simpl in E.
  { by injection E. }
  destruct (node_at w (step cur c)) as [[|?]|].
  - destruct (negb ok && bool_decide (cs = [])); [by injection E | by eapply IH].
  - by injection E.
  - rewrite Hro in E. by injection E.
Qed.

(** What a run that closed the file tells about the world it started
    in. *)
Lemma closed_writable (w w1 w2 w3 w4 : world) (f : fd) (n : nat) :
  makedirs (output_dir file) true w = (Done tt, w1) →
  open_w (svg_path file) w1 = (Done f, w2) →
  write f svg w2 = (Done n, w3) →
  close f w3 = (Done tt, w4) →
  writable w file = true ∧ w4 = filed file w.
Proof.
  intros Emk Eo Ew Ec. cut (writable w file = true).
  { intros Hw. split; [done|].
    destruct (writable_closes _ Hw) as (w1' & f' & w2' & w3' & Emk' & Eo' & Ew' & Ec').
    congruence. }
  rewrite makedirs_output_dir in Emk.
  pose proof (mkdir_p_grows _ _ _ _ _ _ Emk) as Hg.
  pose proof (mkdir_p_done _ _ _ _ Emk) as (Hfiles & Hin & Hout).
  pose proof (mkdir_p_resolve _ _ _ _ Emk) as Hres.
  destruct (open_write_close _ _ _ _ _ _ _ _ _ Eo Ew Ec)
    as (l & Hl & Hd & Hro & _ & _ & Hrc & _).
  assert (l = target w file) as ->.
  { rewrite locate_svg_path in Hl. destruct Hg as (Hcwd & _).
    unfold origin in *. rewrite Hcwd, Hres in Hl. by injection Hl. }
  assert (target w file ∉ way w file) as Hnotin.
  { intros Hin'. apply Hin in Hin'. by rewrite Hin' in Hd. }
  destruct Hg as (_ & Hro' & Hfree & _).
  rewrite (Hout _ Hnotin), Hfree in Hrc. rewrite (Hout _ Hnotin) in Hd.
  unfold writable. rewrite !andb_true_iff, !negb_true_iff, forallb_forall.
  rewrite bool_decide_eq_false, bool_decide_eq_true.
  split_and!; try done.
  - congruence.
  - intros l Hl'%list_elem_of_In. apply negb_true_iff.
    by eapply Forall_forall in Hfiles.
  - case_bool_decide; [done | lia].
Qed.

(** What a successful run tells about the world it started in. *)
Lemma main_memfs_ok_inv (w w' : world) :
  main memfs file w = (Ok tt, w') →
  writable w file = true ∧ w' = final file w.
Proof.
  intros E. destruct (main_inv _ _ _ _ _ E) as (log & Hrun & _).
  inversion Hrun as [| | | | |w1 f w2 n w3 w4 r w'' plog Emk Eo Ew Ec Hp]; subst.
  destruct (closed_writable _ _ _ _ _ _ _ Emk Eo Ew Ec) as [Hw ->].
  split; [done|].
  destruct (prints_memfs _ _ _ _ _ Hp) as [-> _].
  apply (prints_log memfs) in Hp as (_&_&_&_&_&_&_&_&_&Hok&_).
  unfold final. fold (filed file w). f_equal. by apply Hok.
Qed.

Lemma main_memfs_ok_printable (w w' : world) :
  main memfs file w = (Ok tt, w') → printable w file = true.
Proof.
  intros E. destruct (main_inv _ _ _ _ _ E) as (log & Hrun & _).
  inversion Hrun as [| | | | |w1 f w2 n w3 w4 r w'' plog Emk Eo Ew Ec Hp]; subst.
  destruct (closed_writable _ _ _ _ _ _ _ Emk Eo Ew Ec) as [Hw ->].
  destruct (prints_memfs _ _ _ _ _ Hp) as [_ Hacc].
  destruct (filed_console w) as [Hs Hc]. rewrite Hs, Hc in Hacc.
  by apply Hacc.
Qed.

(** A run that fails before the file is open leaves every regular
    file as it was; in a read-only file system it changes nothing. *)
Lemma makedirs_grows (p : string) (ok : bool) (w w1 : world) r :
  makedirs p ok w = (r, w1) → grows w w1.
Proof. apply makedirs_grows_aux. Qed.

Lemma makedirs_readonly (p : string) (ok : bool) (w w1 : world) r :
  readonly w = true → makedirs p ok w = (r, w1) → w1 = w.
Proof.
  unfold makedirs. destruct (String.eqb p "").
  - by intros _ [= _ <-].
  - apply mkdir_p_readonly.
Qed.

Lemma open_w_readonly (p : string) (w w2 : world) ro :
  readonly w = true → open_w p w = (ro, w2) → ∃ e c, ro = Failed e c ∧ w2 = w.
Proof.
  unfold open_w. intros Hro E. rewrite Hro in E.
  destruct (locate w p) as [l|]; [|injection E as <- <-; by eexists _, _].
  destruct (node_at w l) as [[|?]|]; injection E as <- <-; by eexists _, _.
Qed.

End ScriptOnMemFS.

(** ** Errors *)

Section Errors.

Context {W : Type} (os : OS W) (file : string).

Lemma errors_app (l1 l2 : list event) : errors (l1 ++ l2) = errors l2 ++ errors l1.
Proof.
  induction l1 as [|ev l1 IH]; [by rewrite app_nil_r|].
  change (errors (l1 ++ l2) ++ raised ev = errors l2 ++ errors l1 ++ raised ev).
  by rewrite IH, app_assoc.
Qed.

Lemma fs_calls_app (l1 l2 : list event) : fs_calls (l1 ++ l2) = fs_calls l1 ++ fs_calls l2.
Proof. apply bind_app. Qed.

Lemma print_calls_app (l1 l2 : list event) :
  print_calls (l1 ++ l2) = print_calls l1 ++ print_calls l2.
Proof. apply bind_app. Qed.

Lemma printed_app (l1 l2 : list event) : printed (l1 ++ l2) = printed l1 ++ printed l2.
Proof. apply bind_app. Qed.

(** A print that raises is the last call of the run, and its
    exception is the one that ends it. *)
Lemma prints_order (lines : list string) (w w' : W) r plog :
  prints os lines w r w' plog →
  printed plog `prefix_of` print_calls plog ∧
  ∀ l e c, EvPrint l (Failed e c) ∈ plog →
           r = Raise e c ∧ last plog = Some (EvPrint l (Failed e c)).
Proof.
  induction 1 as [w|l ls w w1 r w' log E _ [IHp IH]|l ls w e c w1 E].
  - split; [done|]. by intros l e c ?%elem_of_nil.
  - split; [by apply prefix_cons|].
    intros l' e c [?|Hin]%elem_of_cons; [done|].
    destruct (IH _ _ _ Hin) as [-> Hlast]. split; [done|].
    by rewrite last_cons, Hlast.
  - split; [apply prefix_nil|].
    intros l' e' c' [[= -> -> ->]|?%elem_of_nil]%elem_of_cons; done.
Qed.

(** What a run leaves in the log: the errors raised are the exception
    at the top and its contexts; the prints come after the close of the
    file and stop at the first that raises. *)
Lemma run_log (w w' : W) (r : result unit) (log : list event) :
  run os file w r w' log →
  errors log = match r with Ok _ => [] | Raise e c => e :: c end ∧
  (fs_errors log ≠ [] → fs_errors log = errors log ∧ print_calls log = []) ∧
  print_calls log `prefix_of` guidance_lines file ∧
  printed log `prefix_of` guidance_lines file ∧
  (r = Ok tt ↔ printed log = guidance_lines file) ∧
  length (made log) = 1 ∧ length (opened log) ≤ 1 ∧
  length (written log) ≤ 1 ∧ length (closed log) ≤ 1.
Proof.
  destruct 1 as [e c w1 Emk|w1 e c w2 Emk Eo|w1 f w2 e c w3 w4 Emk Eo Ew Ec
                |w1 f w2 e c w3 e' c' w4 Emk Eo Ew Ec|w1 f w2 n w3 e c w4 Emk Eo Ew Ec
                |w1 f w2 n w3 w4 r w' plog Emk Eo Ew Ec Hp].
  1-5: split_and!; try done; try (cbn; lia); try apply prefix_nil.
  1-4: cbn [errors raised failure]; by rewrite ?app_nil_r.
  apply prints_log in Hp as (Hm & Ho & Hwr & Hc & _ & Hfs & Hpre & Hcalls & Herr & Hok & _).
  rewrite errors_app. unfold fs_errors. rewrite fs_calls_app, Hfs.
  rewrite print_calls_app, printed_app.
  unfold made, opened, written, closed in *. rewrite !bind_app, Hm, Ho, Hwr, Hc.
  split_and!; try done; try (cbn; lia).
  - by rewrite Herr, app_nil_r.
Qed.

(** C6. No error is caught, wrapped or retried, whichever call raises
    it: the directory creation, the open, the write, the close of the
    file, or a print of the guidance.  Whatever the operating system and
    the console answer: the exception that reaches the top level and its
    contexts are exactly the errors the calls raised, the latest first;
    after an error of the file system nothing is printed; no call is
    made a second time; and the exit status is 0 exactly when no call
    raised and the flush at exit succeeded, 1 when a call raised, and
    120 when the flush at exit failed. *)
Theorem filesystem_errors_reach_top_level (w w' w'' : W) (r : result unit)
    (log : list event) (flushed : reply unit) :
  main (traced os) file (w, []) = (r, (w', log)) →
  os_flush os w' = (flushed, w'') →
  script (traced os) file (w, []) = (status flushed r, (w'', log)) ∧
  (errors log = [] → r = Ok tt) ∧
  (∀ e, e ∈ errors log →
     ∃ x c, r = Raise x c ∧ e ∈ x :: c ∧ x :: c = errors log) ∧
  (fs_errors log ≠ [] →
     ∃ x c, r = Raise x c ∧ x :: c = fs_errors log ∧ print_calls log = []) ∧
  (status flushed r = 0 ↔ errors log = [] ∧ flushed = Done tt) ∧
  (errors log ≠ [] → flushed = Done tt → status flushed r = 1) ∧
  (flushed ≠ Done tt → status flushed r = 120) ∧
  length (made log) = 1 ∧ length (opened log) ≤ 1 ∧
  length (written log) ≤ 1 ∧ length (closed log) ≤ 1 ∧
  print_calls log `prefix_of` guidance_lines file.
Proof.
  intros E Hflush. split.
  { eapply script_status; [exact E|]. cbn [os_flush traced fst snd]. by rewrite Hflush. }
  apply main_run_inv, run_log in E as (Herr & Hfs & Hcalls & _ & _ & ? & ? & ? & ?).
  split_and!; try done.
  - rewrite Herr. by destruct r as [[]|].
  - rewrite Herr. destruct r as [[]|x c]; [by intros e ?%elem_of_nil|].
    intros e He. by exists x, c.
  - intros Hne. destruct (Hfs Hne) as [Hfe ?]. rewrite Hfe, Herr in *.
    destruct r as [[]|x c]; [by destruct Hne|]. by exists x, c.
  - rewrite Herr. destruct flushed as [[]|], r as [[]|]; cbn; intuition congruence.
  - rewrite Herr. intros Hne ->. by destruct r as [[]|].
  - by destruct flushed as [[]|].
Qed.

End Errors.

(** ** The file object *)

Section Handles.

Import MemFS.

Lemma descriptors_spec (log : list event) (p : string) (f : fd) :
  EvOpen p (Done f) ∈ log ↔ (p, f) ∈ descriptors log.
Proof.
  induction log as [|ev log IH]; [by rewrite !elem_of_nil|].
  change (descriptors (ev :: log)) with
    (match ev with EvOpen p (Done f) => [(p, f)] | _ => [] end ++ descriptors log).
  rewrite elem_of_cons, elem_of_app, IH.
  destruct ev as [| ? [?|?] | | |];
    rewrite ?elem_of_nil, ?list_elem_of_singleton; intuition congruence.
Qed.

(** Whatever the outcome of a run on the in-memory file system, the
    open file objects are the ones there were before it. *)
Lemma memfs_handles (file : string) (w w' : world) (r : result unit) (log : list event) :
  run memfs file w r w' log → handles w' = handles w.
Proof.
  intros Hrun.
  assert (∀ w1 rm, makedirs (output_dir file) true w = (rm, w1) →
                   handles w1 = handles w) as Hmk.
  { intros w1 rm Emk. by destruct (makedirs_grows _ _ _ _ _ Emk) as (_&_&_&->&_). }
  destruct Hrun as [e c w1 Emk|w1 e c w2 Emk Eo|w1 f w2 e c w3 w4 Emk Eo Ew Ec
                   |w1 f w2 e c w3 e' c' w4 Emk Eo Ew Ec|w1 f w2 n w3 e c w4 Emk Eo Ew Ec
                   |w1 f w2 n w3 w4 r w' plog Emk Eo Ew Ec Hp].
  - exact (Hmk _ _ Emk).
  - apply open_w_fails in Eo as ->. exact (Hmk _ _ Emk).
  - destruct (open_write_close _ _ _ _ _ _ _ _ _ Eo Ew Ec) as (l&_&_&_&_&_&_&->).
    exact (Hmk _ _ Emk).
  - destruct (open_write_close _ _ _ _ _ _ _ _ _ Eo Ew Ec) as (l&_&_&_&_&_&_&->).
    exact (Hmk _ _ Emk).
  - destruct (open_write_close _ _ _ _ _ _ _ _ _ Eo Ew Ec) as (l&_&_&_&_&_&_&->).
    exact (Hmk _ _ Emk).
  - destruct (prints_memfs _ _ _ _ _ Hp) as [-> _].
    destruct (open_write_close _ _ _ _ _ _ _ _ _ Eo Ew Ec) as (l&_&_&_&_&_&_&->).
    exact (Hmk _ _ Emk).
Qed.

(** C8. The file object is opened just before the write, used for that
    write only, and closed on every path.  Whatever the operating system
    answers, a successful open is followed at once by the write on its
    descriptor and then by its close, whether the write returned or
    raised, and the log has no other open, write or close; when the open
    fails or is not reached there is no write and no close.  On the
    in-memory file system the open file objects after any run are the
    ones before it. *)
Theorem file_handle_released :
  (∀ (W : Type) (os : OS W) (file : string) (w w' : W) r log,
     main (traced os) file (w, []) = (r, (w', log)) →
     (∀ p f, EvOpen p (Done f) ∈ log →
        ∃ pre rw rc post,
          log = pre ++ [EvOpen p (Done f); EvWrite f svg rw; EvClose f rc] ++ post ∧
          opened (pre ++ post) = [] ∧ written (pre ++ post) = [] ∧
          closed (pre ++ post) = []) ∧
     ((∀ p f, EvOpen p (Done f) ∉ log) → written log = [] ∧ closed log = [])) ∧
  (∀ (file : string) (w w' : world) r,
     main memfs file w = (r, w') → handles w' = handles w).
Proof.
  split.
  - intros W os file w w' r log E%main_run_inv.
    destruct E as [e c w1 Emk|w1 e c w2 Emk Eo|w1 f w2 e c w3 w4 Emk Eo Ew Ec
                  |w1 f w2 e c w3 e' c' w4 Emk Eo Ew Ec|w1 f w2 n w3 e c w4 Emk Eo Ew Ec
                  |w1 f w2 n w3 w4 r w' plog Emk Eo Ew Ec Hp].
    6: apply prints_log in Hp as (_ & Ho & Hwr & Hc & Hd & _).
    1-5: split;
      [ intros p f' Hin%descriptors_spec; cbn in Hin
      | intros H; try done; exfalso; eapply (H _ f), list_elem_of_further,
          list_elem_of_here ].
    1,2: by apply elem_of_nil in Hin.
    1-3: apply list_elem_of_singleton in Hin; injection Hin as -> ->.
    1-3: by eexists [_], _, _, [].
    split; [|intros H; exfalso; eapply (H _ f), list_elem_of_further,
                list_elem_of_here].
    intros p f' Hin%descriptors_spec. unfold descriptors in Hin.
    rewrite bind_app in Hin. fold (descriptors plog) in Hin.
    rewrite Hd, app_nil_r in Hin. cbn in Hin.
    apply list_elem_of_singleton in Hin; injection Hin as -> ->.
    eexists [_], _, _, plog. split; [done|].
    unfold opened, written, closed in *.
    by rewrite !bind_app, Ho, Hwr, Hc.
  - intros file w w' r E. destruct (main_inv _ _ _ _ _ E) as (log & Hrun & _).
    by eapply memfs_handles.
Qed.

End Handles.

(** ** The written file *)

Section WrittenFile.

Import MemFS Posixpath.

Variable file : string.

Lemma node_at_nodes (w w' : world) (t l : list string) (x : node) :
  nodes w' = <[t := x]> (nodes w) → t ≠ [] →
  node_at w' l = if decide (t = l) then Some x else node_at w l.
Proof.
  intros E Ht. destruct l as [|c l]; [by rewrite decide_False|].
  rewrite !node_at_cons, E. apply lookup_insert.
Qed.

(** The state in which a run that closed the file leaves the file
    system, whatever it then printed. *)
Lemma said_unfold (ls : list string) (w w1 : world) :
  makedirs (output_dir file) true w = (Done tt, w1) →
  say ls (filed file w) =
  World (<[target w file := File svg]> (nodes w1)) (cwd w1) (readonly w1)
        (free w1 + size_of (node_at w1 (target w file)) - String.length svg)
        (handles w1) (stdout w1 ++ ls) (console w1).
Proof. intros E. unfold filed. by rewrite E. Qed.

Lemma said_facts (ls : list string) (w : world) :
  writable w file = true →
  (target w file ∉ way w file) ∧
  resolve (say ls (filed file w)) (origin w (output_dir file))
          (split_sep (output_dir file))
    = Some (place w (output_dir file)) ∧
  node_at (say ls (filed file w)) (target w file) = Some (File svg) ∧
  (∀ l, l ≠ target w file →
        node_at (say ls (filed file w)) l = node_at w l ∨
        (node_at w l = None ∧ node_at (say ls (filed file w)) l = Some Dir)) ∧
  cwd (say ls (filed file w)) = cwd w ∧ readonly (say ls (filed file w)) = false ∧
  free (say ls (filed file w)) + String.length svg =
    free w + size_of (node_at w (target w file)) ∧
  handles (say ls (filed file w)) = handles w.
Proof.
  intros Hw. pose proof Hw as Hw'. revert Hw'.
  unfold writable. rewrite !andb_true_iff, !negb_true_iff, forallb_forall.
  rewrite bool_decide_eq_false, bool_decide_eq_true.
  intros ((((Hro & Hway) & Hdir) & Hnotin) & Hroom).
  destruct (mkdir_p_succeeds (split_sep (output_dir file))
              (origin w (output_dir file)) w Hro) as [w1 Emk].
  { apply Forall_forall. intros l Hl. apply negb_true_iff, Hway.
    by apply list_elem_of_In. }
  pose proof (mkdir_p_grows _ _ _ _ _ _ Emk) as Hg.
  pose proof (mkdir_p_done _ _ _ _ Emk) as (_ & Hin & Hout).
  pose proof (mkdir_p_resolve _ _ _ _ Emk) as Hres.
  rewrite <- makedirs_output_dir in Emk.
  rewrite (said_unfold _ _ _ Emk).
  assert (target w file ≠ []) as Hne by done.
  destruct Hg as (Hcwd & Hro1 & Hfree & Hhs & _ & Hnodes).
  match goal with |- context [resolve ?x _ _] => set (w' := x) end.
  assert (∀ l, node_at w' l =
               if decide (target w file = l) then Some (File svg) else node_at w1 l)
    as Hnode.
  { intros l. by apply node_at_nodes. }
  split_and!; try done.
  - unfold place. rewrite <- Hres. apply resolve_ext. intros l Hl.
    rewrite Hnode. by rewrite decide_False by (intros <-; done).
  - rewrite Hnode. by rewrite decide_True.
  - intros l Hl. rewrite Hnode, decide_False by done. apply Hnodes.
  - by rewrite <- Hro1 in Hro.
  - change (free w') with
      (free w1 + size_of (node_at w1 (target w file)) - String.length svg).
    rewrite (Hout _ Hnotin), Hfree. lia.
Qed.

(** The state a successful run leaves. *)
Lemma final_facts (w : world) :
  writable w file = true →
  (target w file ∉ way w file) ∧
  resolve (final file w) (origin w (output_dir file)) (split_sep (output_dir file))
    = Some (place w (output_dir file)) ∧
  node_at (final file w) (target w file) = Some (File svg) ∧
  (∀ l, l ≠ target w file →
        node_at (final file w) l = node_at w l ∨
        (node_at w l = None ∧ node_at (final file w) l = Some Dir)) ∧
  cwd (final file w) = cwd w ∧ readonly (final file w) = false ∧
  free (final file w) + String.length svg =
    free w + size_of (node_at w (target w file)) ∧
  handles (final file w) = handles w.
Proof. apply (said_facts (guidance_lines file)). Qed.

Lemma read_file_at (w : world) (p : string) (l : list string) (c : string) :
  locate w p = Some l → node_at w l = Some (File c) → read_file w p = Some c.
Proof. unfold read_file. by intros -> ->. Qed.

Lemma said_locate (ls : list string) (w : world) :
  writable w file = true →
  locate (say ls (filed file w)) (svg_path file) = Some (target w file).
Proof.
  intros Hw. destruct (said_facts ls w Hw) as (_ & Hres & _ & _ & Hcwd & _).
  rewrite locate_svg_path.
  unfold origin in *. by rewrite Hcwd, Hres.
Qed.

Lemma said_read (ls : list string) (w : world) :
  writable w file = true →
  read_file (say ls (filed file w)) (svg_path file) = Some svg.
Proof.
  intros Hw. eapply read_file_at; [by apply said_locate|].
  by apply said_facts.
Qed.

Lemma final_read (w : world) :
  writable w file = true → read_file (final file w) (svg_path file) = Some svg.
Proof. apply (said_read (guidance_lines file)). Qed.

Lemma said_target (ls : list string) (w : world) :
  writable w file = true →
  way (say ls (filed file w)) file = way w file ∧
  target (say ls (filed file w)) file = target w file.
Proof.
  intros Hw. destruct (said_facts ls w Hw) as (_ & _ & _ & _ & Hcwd & _).
  unfold way, target, place, origin. by rewrite Hcwd.
Qed.

(** A run that closed the file leaves the file system in a state in
    which the next one does as well. *)
Lemma said_writable (ls : list string) (w : world) :
  writable w file = true → writable (say ls (filed file w)) file = true.
Proof.
  intros Hw.
  destruct (said_facts ls w Hw) as (Hnotin & Hres & Ht & Hrest & Hcwd & Hro & Hfree & _).
  destruct (said_target ls w Hw) as [Eway Et].
  unfold writable. rewrite Eway, Et, Ht, Hro. simpl.
  rewrite !andb_true_iff, !negb_true_iff, forallb_forall.
  rewrite bool_decide_eq_false, bool_decide_eq_true.
  split_and!; try done; [|lia].
  intros l Hl%list_elem_of_In. apply negb_true_iff.
  apply resolve_Some in Hres as [_ HF].
  eapply Forall_forall in HF; [|exact Hl]. by rewrite HF.
Qed.

(** There the directories exist already, and the open empties the file
    that holds the document. *)
Lemma said_makedirs (ls : list string) (w : world) :
  writable w file = true →
  makedirs (output_dir file) true (say ls (filed file w)) =
  (Done tt, say ls (filed file w)).
Proof.
  intros Hw. destruct (said_facts ls w Hw) as (_ & Hres & _ & _ & Hcwd & _).
  rewrite makedirs_output_dir. eapply mkdir_p_exists.
  unfold origin in *. rewrite Hcwd. exact Hres.
Qed.

Lemma said_open (ls : list string) (w : world) :
  writable w file = true →
  ∃ f o,
    open_w (svg_path file) (say ls (filed file w)) = (Done f, o) ∧
    node_at o (target w file) = Some (File "") ∧
    free o = free (say ls (filed file w)) + String.length svg.
Proof.
  intros Hw. destruct (said_facts ls w Hw) as (_ & _ & Ht & _ & _ & Hro & _).
  pose proof (said_locate ls w Hw) as Hloc.
  destruct (open_w_succeeds _ _ _ Hloc) as (f & o & Eo); [by rewrite Ht | done |].
  exists f, o. split; [done|].
  destruct (open_w_done _ _ _ _ Eo) as (l & Hl & Hne & _ & _ & _ & ->).
  assert (l = target w file) as -> by congruence.
  split.
  - erewrite node_at_nodes; [|reflexivity|done]. by rewrite decide_True.
  - cbn [free]. by rewrite Ht.
Qed.

(** Run again, the script leaves the files and the free space as they
    are. *)
Lemma said_again (ls ls' : list string) (w : world) :
  writable w file = true →
  nodes (say ls' (filed file (say ls (filed file w)))) = nodes (say ls (filed file w)) ∧
  free (say ls' (filed file (say ls (filed file w)))) = free (say ls (filed file w)).
Proof.
  intros Hw.
  destruct (said_facts ls w Hw) as (Hnotin & Hres & Ht & _ & Hcwd & _).
  destruct (said_target ls w Hw) as [_ Et].
  rewrite (said_unfold _ _ _ (said_makedirs ls w Hw)), Et. cbn [nodes free].
  rewrite Ht. split; [by apply insert_id|].
  change (size_of (Some (File svg))) with (String.length svg). lia.
Qed.

(** From a [writable] state the run closes the file and ends as its
    prints do: with status 0 exactly when the console takes the
    guidance. *)
Lemma writable_run (w : world) :
  writable w file = true →
  ∃ r ls,
    main memfs file w = (r, say ls (filed file w)) ∧
    (r = Ok tt ↔ printable w file = true) ∧
    (exit_status r = 0 ↔ printable w file = true).
Proof.
  intros Hw.
  destruct (print_all_prints memfs (guidance_lines file) (filed file w))
    as (r & w' & plog & Hp & _).
  destruct (prints_memfs _ _ _ _ _ Hp) as [-> Hacc].
  destruct (filed_console file w) as [Hs Hc]. rewrite Hs, Hc in Hacc.
  exists r, (printed plog). split_and!; [|done|].
  - by eapply main_memfs_writable.
  - rewrite <- Hacc. by destruct r as [[]|].
Qed.

(** C9. After a successful run the file [icon.svg] holds the string
    [generate_icon_svg] returns, character for character: one write was
    made, of that string, and the file ends as the string does, with
    [>] and no line feed. *)
Theorem written_file_is_the_document (w w' : world) (log : list event) :
  main (traced memfs) file (w, []) = (Ok tt, (w', log)) →
  ∃ text,
    generate_icon_svg w = (Ok text, w) ∧
    read_file w' (svg_path file) = Some text ∧
    (written log).*2 = [text] ∧
    Text.last_char text = Some ">"%char.
Proof.
  intros Hrun%main_run_inv. pose proof (run_main _ _ _ _ _ _ Hrun) as E.
  apply main_memfs_ok_inv in E as [Hw ->].
  exists svg. split_and!; [done | by apply final_read | | by vm_compute].
  inversion Hrun as [| | | | |w1 f w2 n w3 w4 r w'' plog Emk Eo Ew Ec Hp]; subst.
  apply (prints_log memfs) in Hp as (_ & _ & Hwr & _).
  unfold written in *. by rewrite bind_app, Hwr.
Qed.

(** C4. In a file system the script can write to, running it twice
    leaves in [icon.svg], after the second run, the content the first
    run left: the document, once, whatever the file held before.  The
    second run finds the directories in place, its open empties the file
    and gives its room back, and it changes no file and uses no further
    space.  Each run ends with exit status 0 exactly when the console
    takes the lines it prints; the file is written in either case. *)
Theorem second_run_overwrites (w : world) :
  writable w file = true →
  ∃ s1 w1 s2 w2 f o,
    script memfs file w = (s1, w1) ∧
    script memfs file w1 = (s2, w2) ∧
    (s1 = 0 ↔ printable w file = true) ∧
    (s2 = 0 ↔ printable w1 file = true) ∧
    read_file w1 (svg_path file) = Some svg ∧
    read_file w2 (svg_path file) = read_file w1 (svg_path file) ∧
    nodes w2 = nodes w1 ∧ free w2 = free w1 ∧
    makedirs (output_dir file) true w1 = (Done tt, w1) ∧
    open_w (svg_path file) w1 = (Done f, o) ∧
    node_at o (target w1 file) = Some (File "") ∧
    free o = free w1 + String.length svg.
Proof.
  intros Hw.
  destruct (writable_run w Hw) as (r1 & ls1 & E1 & _ & Hs1).
  pose proof (said_writable ls1 w Hw) as Hw1.
  destruct (writable_run _ Hw1) as (r2 & ls2 & E2 & _ & Hs2).
  destruct (said_again ls1 ls2 w Hw) as [Hn Hf].
  destruct (said_open ls1 w Hw) as (f & o & Eo & Ho & Hfo).
  destruct (said_target ls1 w Hw) as [_ Et].
  exists (exit_status r1), (say ls1 (filed file w)),
         (exit_status r2), (say ls2 (filed file (say ls1 (filed file w)))), f, o.
  split_and!; try done.
  - by apply script_memfs.
  - by apply script_memfs.
  - by apply said_read.
  - by rewrite !said_read.
  - by apply said_makedirs.
  - by rewrite Et.
Qed.

End WrittenFile.

(** ** Where the file is *)

Section Location.

Import MemFS Posixpath.

Variable file : string.

Lemma ends_with_sep_inv (d : string) :
  ends_with_sep d = true → ∃ d', d = d' +:+ "/".
Proof.
  induction d as [|c d IH]; [done|]. destruct d as [|c' d].
  - intros ->%Ascii.eqb_eq. by exists "".
  - intros H. destruct (IH H) as [d' E]. exists (String c d').
    by rewrite append_cons, <- E.
Qed.

(** Following [dir_prefix d +:+ rest] is following [d], then [rest]. *)
Lemma place_dir_prefix (w : world) (d rest : string) :
  rest ≠ "" → starts_with "/" rest = false →
  place w (dir_prefix d +:+ rest) = foldl step (place w d) (split_sep rest).
Proof.
  intros Hne Hrel.
  destruct (String.eqb_spec d "") as [->|Hd].
  { change (dir_prefix "" +:+ rest) with rest. unfold place, origin.
    by rewrite Hrel. }
  unfold dir_prefix. rewrite (proj2 (String.eqb_neq _ _) Hd). cbn [orb].
  unfold place. destruct (ends_with_sep d) eqn:Hs.
  - destruct (ends_with_sep_inv _ Hs) as [d' ->].
    rewrite origin_app by done.
    rewrite append_assoc, split_sep_app_sep, foldl_app.
    change (d' +:+ "/") with (d' +:+ "/" +:+ "").
    by rewrite split_sep_app_sep, foldl_app.
  - rewrite append_assoc, origin_app by done.
    by rewrite split_sep_app_sep, foldl_app.
Qed.

(** The file written is [icon.svg] in [icons] in [src-tauri] in the
    parent of the directory of the script. *)
Lemma target_eq (w : world) :
  target w file =
  "icon.svg" :: "icons" :: "src-tauri" :: tail (place w (dirname file)).
Proof.
  unfold target. rewrite output_dir_eq, place_dir_prefix by done.
  reflexivity.
Qed.

End Location.

(** ** The runs on the in-memory file system *)

Section MemFSRuns.

Import MemFS Posixpath.

Variable file : string.

(** A run on the in-memory file system either stops before the file is
    open, and is then in the state [makedirs] left, or opens the file at
    [target] and leaves some text in it. *)
Lemma memfs_run_shape (w w' : world) (r : result unit) (log : list event) :
  run memfs file w r w' log →
  ∃ rm w1,
    makedirs (output_dir file) true w = (rm, w1) ∧
    head log = Some (EvMakedirs (output_dir file) true rm) ∧
    ((descriptors log = [] ∧ w' = w1 ∧
      ∃ e c, r = Raise e c ∧
             (rm = Done tt → log !! 1 = Some (EvOpen (svg_path file) (Failed e c)))) ∨
     (∃ f c,
        descriptors log = [(svg_path file, f)] ∧
        log !! 1 = Some (EvOpen (svg_path file) (Done f)) ∧
        rm = Done tt ∧ readonly w1 = false ∧
        locate w1 (svg_path file) = Some (target w file) ∧
        is_directory (node_at w1 (target w file)) = false ∧
        cwd w' = cwd w1 ∧
        nodes w' = <[target w file := File c]> (nodes w1))).
Proof.
  assert (∀ w1 f w2 rw w3 rc w4,
            makedirs (output_dir file) true w = (Done tt, w1) →
            open_w (svg_path file) w1 = (Done f, w2) →
            write f svg w2 = (rw, w3) → close f w3 = (rc, w4) →
            ∃ c, readonly w1 = false ∧
                 locate w1 (svg_path file) = Some (target w file) ∧
                 is_directory (node_at w1 (target w file)) = false ∧
                 cwd w4 = cwd w1 ∧
                 nodes w4 = <[target w file := File c]> (nodes w1)) as Hopen.
  { intros w1 f w2 rw w3 rc w4 Emk Eo Ew Ec.
    destruct (open_write_close _ _ _ _ _ _ _ _ _ Eo Ew Ec)
      as (l & Hl & Hd & Hro & _ & _ & _ & ->).
    rewrite makedirs_output_dir in Emk.
    pose proof (mkdir_p_grows _ _ _ _ _ _ Emk) as (Hcwd & _).
    pose proof (mkdir_p_resolve _ _ _ _ Emk) as Hres.
    assert (l = target w file) as ->.
    { rewrite locate_svg_path in Hl. unfold origin in *.
      rewrite Hcwd, Hres in Hl. by injection Hl. }
    by eexists. }
  intros Hrun.
  destruct Hrun as [e c w1 Emk|w1 e c w2 Emk Eo|w1 f w2 e c0 w3 w4 Emk Eo Ew Ec
                   |w1 f w2 e c0 w3 e' c' w4 Emk Eo Ew Ec|w1 f w2 n w3 e c0 w4 Emk Eo Ew Ec
                   |w1 f w2 n w3 w4 r w' plog Emk Eo Ew Ec Hp].
  - eexists _, _. split_and!; [exact Emk | done |]. left. split_and!; try done.
    by eexists _, _.
  - pose proof (open_w_fails _ _ _ _ _ Eo) as ->.
    eexists _, _. split_and!; [exact Emk | done |]. left. split_and!; try done.
    by eexists _, _.
  - destruct (Hopen _ _ _ _ _ _ _ Emk Eo Ew Ec) as (c & ? & ? & ? & ? & ?).
    eexists _, _. split_and!; [exact Emk | done |]. right.
    exists f, c. by split_and!.
  - destruct (Hopen _ _ _ _ _ _ _ Emk Eo Ew Ec) as (c & ? & ? & ? & ? & ?).
    eexists _, _. split_and!; [exact Emk | done |]. right.
    exists f, c. by split_and!.
  - destruct (Hopen _ _ _ _ _ _ _ Emk Eo Ew Ec) as (c & ? & ? & ? & ? & ?).
    eexists _, _. split_and!; [exact Emk | done |]. right.
    exists f, c. by split_and!.
  - destruct (Hopen _ _ _ _ _ _ _ Emk Eo Ew Ec) as (c & ? & ? & ? & ? & ?).
    destruct (prints_memfs _ _ _ _ _ Hp) as [-> _].
    apply (prints_log memfs) in Hp as (_ & _ & _ & _ & Hd & _).
    eexists _, _. split_and!; [exact Emk | done |]. right.
    exists f, c. split_and!; try done.
    unfold descriptors in *. by rewrite bind_app, Hd.
Qed.

(** C7. A run that fails before the file is open, as every run does on
    a read-only file system, ends with status 1 and leaves every regular
    file, the target among them, with the content it had: the file is
    truncated by the open only, which did not happen, and no file object
    is left.  On a read-only file system nothing at all is changed. *)
Theorem failed_run_leaves_no_partial_file (w w' : world) (r : result unit) (log : list event) :
  main (traced memfs) file (w, []) = (r, (w', log)) →
  (readonly w = true → descriptors log = [] ∧ nodes w' = nodes w) ∧
  (descriptors log = [] →
     script memfs file w = (1, w') ∧
     (∀ l c, node_at w' l = Some (File c) ↔ node_at w l = Some (File c)) ∧
     handles w' = handles w).
Proof.
  intros Hrun%main_run_inv.
  pose proof (run_main _ _ _ _ _ _ Hrun) as Emain.
  pose proof (memfs_handles _ _ _ _ _ Hrun) as Hhs.
  destruct (memfs_run_shape _ _ _ _ Hrun) as (rm & w1 & Emk & _ & Hcases).
  pose proof (makedirs_grows _ _ _ _ _ Emk) as Hg.
  destruct Hcases as [(Hd & -> & e & ctx & -> & _)|(f & c & Hd & _ & _ & Hro & _)].
  - split.
    + intros Hro. split; [done|]. by rewrite (makedirs_readonly _ _ _ _ _ Hro Emk).
    + intros _. split_and!; [by apply (script_memfs file w _ (Raise e ctx)) | | done].
      intros l c. by apply grows_files.
  - split.
    + intros Hro'. destruct Hg as (_ & Hro1 & _). congruence.
    + by rewrite Hd.
Qed.

(** C5. [main] first calls [makedirs] on the output directory, with
    [exist_ok].  When the call returns, the output directory and every
    directory on the way to it exist, whether they did before or not, and
    in a writable file system with no regular file in the way it does
    return; when the output directory is there already the call raises
    nothing, changes nothing, and the run goes on to open the file. *)
Theorem makedirs_recursive_and_idempotent (w w' : world) (r : result unit) (log : list event) :
  main (traced memfs) file (w, []) = (r, (w', log)) →
  ∃ rm,
    head log = Some (EvMakedirs (output_dir file) true rm) ∧
    (rm = Done tt →
       is_dir w' (output_dir file) = true ∧
       Forall (fun l => node_at w' l = Some Dir) (way w file)) ∧
    (readonly w = false →
     Forall (fun l => is_file (node_at w l) = false) (way w file) →
     rm = Done tt) ∧
    (is_dir w (output_dir file) = true →
       rm = Done tt ∧
       makedirs (output_dir file) true w = (Done tt, w) ∧
       ∃ ro, log !! 1 = Some (EvOpen (svg_path file) ro)).
Proof.
  intros Hrun%main_run_inv.
  destruct (memfs_run_shape _ _ _ _ Hrun) as (rm & w1 & Emk & Hhead & Hcases).
  exists rm. split; [done|].
  rewrite makedirs_output_dir in Emk.
  pose proof (mkdir_p_grows _ _ _ _ _ _ Emk) as Hg.
  assert (cwd w' = cwd w1 ∧
          (rm = Done tt → ∀ l, l ∈ way w file → node_at w' l = Some Dir))
    as [Hcwd Hdirs].
  { destruct Hcases as [(_ & -> & _)|(f & c & _ & _ & _ & _ & _ & Hd & Hcwd & Hn)].
    - split; [done|]. intros ->. by apply (mkdir_p_done _ _ _ _ Emk).
    - split; [done|]. intros -> l Hl.
      pose proof (proj1 (proj2 (mkdir_p_done _ _ _ _ Emk)) l Hl) as Hdir.
      rewrite (node_at_nodes _ _ _ l _ Hn) by done.
      rewrite decide_False; [done|]. intros <-. by rewrite Hdir in Hd. }
  split_and!.
  - intros Hrm. split; [|by apply Forall_forall, Hdirs].
    apply bool_decide_eq_true. split; [apply output_dir_not_nil|].
    exists (place w (output_dir file)). apply resolve_Some.
    destruct Hg as (Hcwd1 & _).
    unfold place, origin. rewrite Hcwd, Hcwd1. split; [done|].
    apply Forall_forall. intros l Hl. apply Hdirs; [done|].
    unfold way, origin. exact Hl.
  - intros Hro Hfiles.
    destruct (mkdir_p_succeeds _ _ _ Hro Hfiles) as [w1' Emk'].
    unfold way in Emk'. congruence.
  - intros [_ [d Hres]]%bool_decide_eq_true.
    pose proof (mkdir_p_exists _ _ _ _ Hres) as Emk'.
    rewrite Emk' in Emk. injection Emk as <- <-.
    split_and!; [done | by rewrite makedirs_output_dir |].
    destruct Hcases as [(_ & _ & e & c & _ & Hlog)|(f & c & _ & Hlog & _)];
      eexists; [by apply Hlog | exact Hlog].
Qed.

(** C3. A successful run writes to one place.  Whatever the operating
    system, its log has one open, of [svg_path], and one write, of the
    document; [svg_path] is the directory of the script followed by
    [../src-tauri/icons/icon.svg].  On the in-memory file system that
    path names [icon.svg] in [icons] in [src-tauri] in the parent of the
    directory of the script; after the run the document is there, and
    apart from directories that were missing nothing else has changed. *)
Theorem single_output_location :
  (∀ (W : Type) (os : OS W) (w w' : W) (log : list event),
     main (traced os) file (w, []) = (Ok tt, (w', log)) →
     opened log = [svg_path file] ∧ (written log).*2 = [svg] ∧
     svg_path file = dir_prefix (dirname file) +:+ "../src-tauri/icons/icon.svg") ∧
  (∀ (w w' : world),
     main memfs file w = (Ok tt, w') →
     let t := "icon.svg" :: "icons" :: "src-tauri" :: tail (place w (dirname file)) in
     locate w' (svg_path file) = Some t ∧
     node_at w' t = Some (File svg) ∧
     ∀ l, l ≠ t →
          node_at w' l = node_at w l ∨
          (node_at w l = None ∧ node_at w' l = Some Dir)).
Proof.
  split.
  - intros W os w w' log Hrun%main_run_inv.
    inversion Hrun as [| | | | |w1 f w2 n w3 w4 r w'' plog Emk Eo Ew Ec Hp]; subst.
    apply prints_log in Hp as (_ & Ho & Hwr & _).
    unfold opened, written in *. rewrite !bind_app, Ho, Hwr.
    split_and!; [done.. | apply svg_path_eq].
  - intros w w' [Hw ->]%main_memfs_ok_inv. rewrite <- target_eq.
    split_and!; [by apply (said_locate file (guidance_lines file))
                | by apply final_facts..].
Qed.

End MemFSRuns.

(** ** The properties at the sample states *)

Section Samples.

Import MemFS.

(** A first run from the checkout: [src-tauri] and [icons] are made and
    the document is written to [/app/src-tauri/icons/icon.svg]. *)
Lemma single_output_location_witness :
  opened (sample_run sample_world).2.2 = ["scripts/../src-tauri/icons/icon.svg"] ∧
  node_at (main memfs sample_file sample_world).2
          ["icon.svg"; "icons"; "src-tauri"; "app"] = Some (File svg).
Proof.
  destruct (single_output_location sample_file) as [Hlog Hfs]. split.
  - destruct (Hlog _ memfs sample_world (sample_run sample_world).2.1
                (sample_run sample_world).2.2) as (H & _); [vm_compute; reflexivity|].
    rewrite H. vm_compute; reflexivity.
  - destruct (Hfs sample_world (main memfs sample_file sample_world).2)
      as (_ & H & _); [vm_compute; reflexivity|].
    exact H.
Defined.

(** With a console that encodes ASCII only, the run from a writable
    state writes the file and then ends with status 1, at the first
    print. *)
Lemma writable_run_fails_at_print :
  writable sample_ascii sample_file = true ∧
  script memfs sample_file sample_ascii = (1, filed sample_file sample_ascii) ∧
  read_file (filed sample_file sample_ascii) (svg_path sample_file) = Some svg.
Proof. split_and!; vm_compute; reflexivity. Qed.

(** With an older, longer icon in place and no room left, the two runs
    leave the document and nothing of the older icon. *)
Lemma second_run_overwrites_witness :
  writable sample_stale sample_file = true ∧
  read_file sample_stale (svg_path sample_file) =
    Some (svg +:+ "<!-- an older, longer icon -->") ∧
  ∃ s1 w1 s2 w2 f o,
    script memfs sample_file sample_stale = (s1, w1) ∧
    script memfs sample_file w1 = (s2, w2) ∧
    (s1 = 0 ↔ printable sample_stale sample_file = true) ∧
    (s2 = 0 ↔ printable w1 sample_file = true) ∧
    read_file w1 (svg_path sample_file) = Some svg ∧
    read_file w2 (svg_path sample_file) = read_file w1 (svg_path sample_file) ∧
    nodes w2 = nodes w1 ∧ free w2 = free w1 ∧
    makedirs (output_dir sample_file) true w1 = (Done tt, w1) ∧
    open_w (svg_path sample_file) w1 = (Done f, o) ∧
    node_at o (target w1 sample_file) = Some (File "") ∧
    free o = free w1 + String.length svg.
Proof.
  split_and!; [vm_compute; reflexivity.. |].
  apply (second_run_overwrites sample_file sample_stale). vm_compute; reflexivity.
Defined.

(** The first run makes the two missing directories. *)
Lemma makedirs_recursive_and_idempotent_witness :
  is_dir sample_world (output_dir sample_file) = false ∧
  is_dir (sample_run sample_world).2.1 (output_dir sample_file) = true.
Proof.
  split; [vm_compute; reflexivity|].
  destruct (makedirs_recursive_and_idempotent sample_file sample_world
              (sample_run sample_world).2.1 (Ok tt) (sample_run sample_world).2.2)
    as (rm & _ & Hmade & Hok & _); [vm_compute; reflexivity|].
  apply Hmade, Hok; [reflexivity|].
  apply (bool_decide_unpack _). vm_compute. reflexivity.
Defined.

(** With a console that encodes ASCII only no call to the file system
    raises, and yet the program ends with status 1: the first print
    raises [UnicodeEncodeError]. *)
Lemma print_error_reaches_top_level :
  fs_errors (sample_run sample_ascii).2.2 = [] ∧
  errors (sample_run sample_ascii).2.2 = [UnicodeEncodeError] ∧
  script (traced memfs) sample_file (sample_ascii, []) =
    (1, (sample_run sample_ascii).2).
Proof. split_and!; vm_compute; reflexivity. Qed.

(** On a full disk the close raises [ENOSPC], in the context of the
    [ENOSPC] of its flush, which ends the program with status 1; with
    [sys.stdout] on a full device no call raises and the status is
    120. *)
Lemma filesystem_errors_reach_top_level_witness :
  script (traced memfs) sample_file (sample_full, []) =
    (1, (sample_run sample_full).2) ∧
  errors (sample_run sample_full).2.2 = [ENOSPC; ENOSPC] ∧
  (script (traced memfs_stdout_full) sample_file (sample_world, [])).1 = 120.
Proof.
  destruct (filesystem_errors_reach_top_level memfs sample_file sample_full
              (sample_run sample_full).2.1 (sample_run sample_full).2.1
              (Raise ENOSPC [ENOSPC]) (sample_run sample_full).2.2 (Done tt))
    as (H & _); [vm_compute; reflexivity | reflexivity |].
  destruct (filesystem_errors_reach_top_level memfs_stdout_full sample_file sample_world
              (main (traced memfs_stdout_full) sample_file (sample_world, [])).2.1
              (main (traced memfs_stdout_full) sample_file (sample_world, [])).2.1
              (Ok tt)
              (main (traced memfs_stdout_full) sample_file (sample_world, [])).2.2
              (Failed ENOSPC []))
    as (H' & _); [vm_compute; reflexivity | reflexivity |].
  split_and!; [|vm_compute; reflexivity|].
  - rewrite H. vm_compute; reflexivity.
  - by rewrite H'.
Defined.

(** On the read-only file system [makedirs] raises [EROFS] and nothing
    is changed. *)
Lemma failed_run_leaves_no_partial_file_witness :
  readonly sample_readonly = true ∧
  script memfs sample_file sample_readonly = (1, (sample_run sample_readonly).2.1) ∧
  nodes (sample_run sample_readonly).2.1 = nodes sample_readonly.
Proof.
  destruct (failed_run_leaves_no_partial_file sample_file sample_readonly
              (sample_run sample_readonly).2.1 (Raise EROFS [])
              (sample_run sample_readonly).2.2) as (Hro & Hfail); [vm_compute; reflexivity|].
  destruct (Hro eq_refl) as [Hd Hn]. destruct (Hfail Hd) as (Hs & _).
  by split_and!.
Defined.

(** A failure after the open is another matter: on the full disk the
    file is open, hence truncated, when the close fails, and keeps the
    100 characters there was room for. *)
Remark full_disk_leaves_a_truncated_file :
  (sample_run sample_full).1 = Raise ENOSPC [ENOSPC] ∧
  String.length <$> read_file (sample_run sample_full).2.1 (svg_path sample_file)
    = Some 100.
Proof. vm_compute. by split. Qed.

(** On the full disk the file object is closed all the same. *)
Lemma file_handle_released_witness :
  closed (sample_run sample_full).2.2 = [0] ∧
  handles (main memfs sample_file sample_full).2 = handles sample_full.
Proof.
  destruct file_handle_released as [_ Hfs]. split; [vm_compute; reflexivity|].
  by apply (Hfs sample_file sample_full _ (Raise ENOSPC [ENOSPC])); vm_compute.
Defined.

Lemma written_file_is_the_document_witness :
  ∃ text,
    generate_icon_svg sample_world = (Ok text, sample_world) ∧
    read_file (sample_run sample_world).2.1 (svg_path sample_file) = Some text ∧
    (written (sample_run sample_world).2.2).*2 = [text] ∧
    Text.last_char text = Some ">"%char.
Proof.
  apply (written_file_is_the_document sample_file sample_world). vm_compute; reflexivity.
Defined.

End Samples.

(** * Further properties of the script *)

(** ** What a run asks of the operating system *)

Section Requests.

Context {W : Type} (os : OS W) (file : string).

(** X1. Whatever the operating system answers and however the run
    ends, [main] asks for one directory, the output directory with
    [exist_ok]; it opens no path but [svg_path], writes no text but the
    document, and writes and closes no descriptor but the one the open
    returned. *)
Theorem only_the_icon_is_touched (w w' : W) (r : result unit) (log : list event) :
  main (traced os) file (w, []) = (r, (w', log)) →
  made log = [(output_dir file, true)] ∧
  (opened log = [] ∨ opened log = [svg_path file]) ∧
  ((written log).*2 = [] ∨ (written log).*2 = [svg]) ∧
  (written log).*1 = (descriptors log).*2 ∧
  closed log = (descriptors log).*2 ∧
  (descriptors log = [] ∨ ∃ f, descriptors log = [(svg_path file, f)]).
Proof.
  intros E%main_run_inv.
  destruct E as [| | | | |w1 f w2 n w3 w4 r w' plog Emk Eo Ew Ec Hp].
  6: apply prints_log in Hp as (Hm & Ho & Hwr & Hc & Hd & _);
     unfold made, opened, written, closed, descriptors in *;
     rewrite !bind_app, Hm, Ho, Hwr, Hc, Hd.
  all: split_and!; try done; try (by left); try (by right).
  all: right; by eexists.
Qed.

(** X2. The guidance is printed after the file is written and closed,
    and only then.  Every print comes after the last call to the file
    system, which is the close that returned; the lines asked for are
    the eight lines of the guidance in their order, up to the first whose
    print raises; that exception ends the run, so that no line is printed
    after it.  A run in which a call to the file system raised prints
    nothing, and a run returns exactly when it printed the eight
    lines. *)
Theorem guidance_follows_the_file (w w' : W) (r : result unit) (log : list event) :
  main (traced os) file (w, []) = (r, (w', log)) →
  ∃ calls plog,
    log = calls ++ plog ∧ print_calls calls = [] ∧ fs_calls plog = [] ∧
    print_calls log `prefix_of` guidance_lines file ∧
    printed log `prefix_of` print_calls log ∧
    (fs_errors log ≠ [] → print_calls log = []) ∧
    (print_calls log ≠ [] →
       opened log = [svg_path file] ∧ ∃ f, last calls = Some (EvClose f (Done tt))) ∧
    (r = Ok tt ↔ printed log = guidance_lines file) ∧
    (∀ l e c, EvPrint l (Failed e c) ∈ log →
       r = Raise e c ∧ last log = Some (EvPrint l (Failed e c))).
Proof.
  intros Hrun%main_run_inv.
  destruct (run_log _ _ _ _ _ _ Hrun) as (_ & Hfs & Hcalls & _ & Hok & _).
  destruct Hrun as [| | | | |w1 f w2 n w3 w4 r w' plog Emk Eo Ew Ec Hp].
  1-5: eexists _, []; split_and!;
    [by rewrite app_nil_r | done | done | done | done | apply Hfs | done | done
    | intros ? ? ? Hin; repeat (apply elem_of_cons in Hin as [?|Hin]; [done|]);
      by apply elem_of_nil in Hin ].
  destruct (prints_order _ _ _ _ _ _ Hp) as [Hpre Hfail].
  apply prints_log in Hp as (_ & Ho & _ & _ & _ & Hf & _).
  eexists _, plog. split_and!; try done.
  - apply Hfs.
  - intros _. unfold opened in *. rewrite bind_app, Ho. split; [done|]. by eexists.
  - intros l e c Hin. repeat (apply elem_of_cons in Hin as [?|Hin]; [done|]).
    destruct (Hfail _ _ _ Hin) as [-> Hlast]. split; [done|].
    by rewrite last_app, Hlast.
Qed.

End Requests.

(** ** What a run leaves in the in-memory file system *)

Section Outcomes.

Import MemFS.

Variable file : string.

(** X4. On the in-memory file system [main] returns exactly from the
    states that are [writable] and whose console takes the eight lines
    of the guidance, and then leaves the state [final]. *)
Theorem success_iff_writable_and_printable (w w' : world) :
  main memfs file w = (Ok tt, w') ↔
  writable w file = true ∧ printable w file = true ∧ w' = final file w.
Proof.
  split.
  - intros E. pose proof (main_memfs_ok_printable _ _ _ E).
    by apply main_memfs_ok_inv in E as [? ?].
  - intros (Hw & Hp & ->). by apply main_memfs_succeeds.
Qed.

(** X5. However a run ends, it changes no location but the target:
    everywhere else a node keeps its kind and content, except that a
    missing directory may have been made; the working directory stays. *)
Theorem nothing_else_is_changed (w w' : world) (r : result unit) :
  main memfs file w = (r, w') →
  cwd w' = cwd w ∧
  ∀ l, l ≠ target w file →
       node_at w' l = node_at w l ∨
       (node_at w l = None ∧ node_at w' l = Some Dir).
Proof.
  intros E. destruct (main_inv _ _ _ _ _ E) as (log & Hrun & _).
  destruct (memfs_run_shape _ _ _ _ _ Hrun) as (rm & w1 & Emk & _ & Hcases).
  destruct (makedirs_grows _ _ _ _ _ Emk) as (Hcwd & _ & _ & _ & _ & Hnodes).
  destruct Hcases as [(_ & -> & _)|(f & c & _ & _ & _ & _ & _ & _ & Hcwd' & Hn)].
  - by split.
  - split; [congruence|]. intros l Hl.
    rewrite (node_at_nodes _ _ _ l _ Hn) by done.
    rewrite decide_False by done. apply Hnodes.
Qed.

End Outcomes.

(** ** The script path and the output path *)

Section ScriptPath.

Import MemFS Posixpath.

Variable file : string.

(** [dirname] keeps the first character of a path, or is empty for a
    path with no directory part, which is then relative. *)
Lemma dirname_head :
  (dirname file = "" ∧ starts_with "/" file = false) ∨
  (∃ c p d, file = String c p ∧ dirname file = String c d).
Proof.
  destruct file as [|c p]; [by left|].
  unfold dirname. change (upto_last_sep (String c p)) with
    (if has_sep (String c p) then String c (upto_last_sep p) else "").
  destruct (has_sep (String c p)) eqn:Hs.
  - right. exists c, p.
    change (rstrip_sep (String c (upto_last_sep p))) with
      (if all_sep (String c (upto_last_sep p)) then ""
       else String c (rstrip_sep (upto_last_sep p))).
    destruct (all_sep (String c (upto_last_sep p))); cbn [negb andb String.eqb];
      (eexists; split; [reflexivity|]); reflexivity.
  - left. split; [done|].
    change (Ascii.eqb c "/" || has_sep p = false) in Hs.
    apply orb_false_iff in Hs as [Hc%Ascii.eqb_neq _].
    change (Ascii.eqb "/" c && true = false).
    destruct (Ascii.eqb_spec "/" c) as [Heq|]; [congruence | done].
Qed.

Lemma starts_with_dir_prefix (rest : string) :
  starts_with "/" rest = false →
  starts_with "/" (dir_prefix (dirname file) +:+ rest) = starts_with "/" file.
Proof.
  intros Hrest.
  destruct dirname_head as [[-> Hrel]|(c & p & d & Hfile & ->)].
  - by rewrite Hrel.
  - rewrite Hfile. unfold dir_prefix.
    by destruct (String.eqb (String c d) "" || ends_with_sep (String c d)).
Qed.

(** X6. The output path is absolute exactly when the path of the
    script is.  For a script given by an absolute path the file written
    is the same wherever the script is run from; for one given by a
    relative path the output path is followed from the working
    directory. *)
Theorem output_follows_script_path :
  starts_with "/" (svg_path file) = starts_with "/" file ∧
  starts_with "/" (output_dir file) = starts_with "/" file ∧
  (starts_with "/" file = true → ∀ w1 w2 : world, target w1 file = target w2 file) ∧
  (starts_with "/" file = false →
     ∀ w : world, origin w (svg_path file) = cwd w ∧
                  origin w (output_dir file) = cwd w).
Proof.
  assert (starts_with "/" (svg_path file) = starts_with "/" file) as Hp.
  { rewrite svg_path_eq. by apply starts_with_dir_prefix. }
  assert (starts_with "/" (output_dir file) = starts_with "/" file) as Hd.
  { rewrite output_dir_eq. by apply starts_with_dir_prefix. }
  split_and!; try done.
  - intros Habs w1 w2. unfold target, place, origin. by rewrite Hd, Habs.
  - intros Hrel w. unfold origin. by rewrite Hp, Hd, Hrel.
Qed.

End ScriptPath.

(** ** The nesting of the document *)

Section DocumentNesting.

Import Nesting.



(** [nest] refuses tags that cross, an element left open and an end
    tag with no element to close. *)
Example nest_refuses :
  well_nested "<a><b></a></b>" = false ∧ well_nested "<a><b></b>" = false ∧
  well_nested "<a></a></b>" = false ∧ well_nested "<a/><b/>" = false ∧
  well_nested "<a><b/><!-- <c> --></a>" = true.
Proof. by vm_compute. Qed.


End DocumentNesting.

(** ** The further properties at the sample states *)

Section FurtherSamples.

Import MemFS.

(** On the read-only file system the run stops at [makedirs]: one
    directory asked for, nothing opened, written or closed. *)
Lemma only_the_icon_is_touched_witness :
  made (sample_run sample_readonly).2.2 = [("scripts/../src-tauri/icons", true)] ∧
  opened (sample_run sample_readonly).2.2 = [] ∧
  closed (sample_run sample_readonly).2.2 = [].
Proof.
  destruct (only_the_icon_is_touched memfs sample_file sample_readonly
              (sample_run sample_readonly).2.1 (Raise EROFS [])
              (sample_run sample_readonly).2.2) as (H & _ & _ & _ & Hc & _);
    [vm_compute; reflexivity|].
  rewrite H, Hc. vm_compute. by split_and!.
Defined.

(** The eight lines on the console that takes them; with the console
    that encodes ASCII only the first print is the last call; nothing is
    printed on the full disk. *)
Lemma guidance_follows_the_file_witness :
  printed (sample_run sample_world).2.2 = guidance_lines sample_file ∧
  (sample_run sample_ascii).1 = Raise UnicodeEncodeError [] ∧
  print_calls (sample_run sample_full).2.2 = [].
Proof.
  destruct (guidance_follows_the_file memfs sample_file sample_world
              (sample_run sample_world).2.1 (Ok tt)
              (sample_run sample_world).2.2) as (? & ? & _ & _ & _ & _ & _ & _ & _ & Hok & _);
    [vm_compute; reflexivity|].
  destruct (guidance_follows_the_file memfs sample_file sample_ascii
              (sample_run sample_ascii).2.1 (sample_run sample_ascii).1
              (sample_run sample_ascii).2.2) as (? & ? & _ & _ & _ & _ & _ & _ & _ & _ & Hfail);
    [vm_compute; reflexivity|].
  destruct (guidance_follows_the_file memfs sample_file sample_full
              (sample_run sample_full).2.1 (Raise ENOSPC [ENOSPC])
              (sample_run sample_full).2.2) as (? & ? & _ & _ & _ & _ & _ & Hfs & _);
    [vm_compute; reflexivity|].
  split_and!.
  - by apply Hok.
  - eapply (Hfail ("✓ Generated SVG icon at: " +:+ svg_path sample_file)).
    apply (list_elem_of_lookup_2 _ 4). vm_compute; reflexivity.
  - apply Hfs. vm_compute. discriminate.
Defined.

Lemma nothing_else_is_changed_witness :
  node_at (main memfs sample_file sample_world).2
          ["generate_icon.py"; "scripts"; "app"]
    = Some (File "#!/usr/bin/env python3") ∧
  cwd (main memfs sample_file sample_world).2 = ["app"].
Proof.
  destruct (nothing_else_is_changed sample_file sample_world
              (main memfs sample_file sample_world).2 (Ok tt)) as [Hcwd Hnodes];
    [vm_compute; reflexivity|].
  split; [|exact Hcwd].
  destruct (Hnodes ["generate_icon.py"; "scripts"; "app"]) as [->|[H _]];
    [vm_compute; discriminate | vm_compute; reflexivity | ].
  revert H. vm_compute. discriminate.
Defined.

End FurtherSamples.
